(** * Task coordinator of the multi-agent demo: a shallow embedding

    Source files embedded here:
    - [workflows/task_coordinator.py]  ([TaskCoordinator], [Workflow],
      [WorkflowTask], [WorkflowStatus]);
    - [agents/base_agent.py]           ([Message], [TaskResult],
      [BaseAgent.add_message], [BaseAgent.execute_task]).

    Conventions of the embedding.
    - Python [int] is [Z]; [str] is [string]; [Optional[X]] is [option X].
    - [dict] keyed by strings is a [gmap string _]; a [set] of strings is a
      [gset string]; a Python list is a [list].
    - Wall-clock fields ([created_at], [started_at], [completed_at],
      [timestamp], [execution_time]) and [print] calls carry no control flow
      and are left out.
    - Opaque payloads ([data], [TaskResult.result], [metadata]) are kept
      as uninterpreted strings / association lists.
    - [workflow.progress] is a Python float computed as
      [len(completed) / len(tasks) * 100]; it is embedded as the exact
      rational of that expression.
    - A raised exception is a value of [exn]; a method that may raise
      returns [exn + A] next to the state it leaves behind. *)

From Stdlib Require Import QArith ZArith Lia DecimalString.
From stdpp Require Import gmap strings list fin_maps sorting.
From Equations Require Import Equations.

Local Open Scope string_scope.
Local Open Scope Z_scope.

(** ** Data model *)

(** [TaskResult] of base_agent.py *)
Module TaskResult.
Record t := mk {
  agent_id : string;
  task_id : string;
  status : string;              (* "success", "failed", "in_progress" *)
  result : option string;       (* opaque payload, [None] for Python None *)
  error_message : option string
}.
End TaskResult.

(** [Message] of base_agent.py *)
Module Message.
Record t := mk {
  sender : string;
  receiver : string;
  content : string;
  message_type : string;
  metadata : list (string * string)
}.
End Message.

(** [WorkflowStatus] of task_coordinator.py *)
Inductive WorkflowStatus := IDLE | RUNNING | PAUSED | COMPLETED | FAILED | CANCELLED.

(** [WorkflowTask] of task_coordinator.py *)
Module WorkflowTask.
Record t := mk {
  task_id : string;
  task_type : string;
  agent_id : string;
  data : string;
  dependencies : list string;
  priority : Z;
  timeout : Z;
  retry_count : Z;
  max_retries : Z;
  status : string;              (* pending, running, completed, failed *)
  result : option TaskResult.t
}.

Definition set_status (s : string) (k : t) : t :=
  mk (task_id k) (task_type k) (agent_id k) (data k) (dependencies k)
     (priority k) (timeout k) (retry_count k) (max_retries k) s (result k).

Definition set_result (r : option TaskResult.t) (k : t) : t :=
  mk (task_id k) (task_type k) (agent_id k) (data k) (dependencies k)
     (priority k) (timeout k) (retry_count k) (max_retries k) (status k) r.

Definition set_retry_count (n : Z) (k : t) : t :=
  mk (task_id k) (task_type k) (agent_id k) (data k) (dependencies k)
     (priority k) (timeout k) n (max_retries k) (status k) (result k).
End WorkflowTask.

(** Text produced by [str(e)].  The only f-string of the coordinator whose
    rendering goes through Python's [repr] of a list is the dead-end error
    of [_execute_workflow_tasks]; its list is kept as data instead of being
    rendered. *)
Inductive pystr :=
| Lit (s : string)
| UnresolvedDepsMsg (unresolved_deps : list string).
    (* f"任务依赖无法解决: {unresolved_deps}" *)

(** Exceptions raised or passed on by the coordinator. *)
Inductive exn :=
| ValueError (msg : string)
| KeyError (key : string)
| PyException (msg : pystr)        (* [raise Exception(msg)] *)
| WorkerException (msg : string).  (* raised inside the worker, [str(e) = msg] *)

Definition str (e : exn) : pystr :=
  match e with
  | ValueError m => Lit m
  | KeyError k => Lit ("'" +:+ k +:+ "'")
  | PyException m => m
  | WorkerException m => Lit m
  end.

(** [Workflow] of task_coordinator.py *)
Module Workflow.
Record t := mk {
  workflow_id : string;
  name : string;
  description : string;
  tasks : list WorkflowTask.t;
  status : WorkflowStatus;
  progress : Q;
  error_message : option pystr
}.

Definition set_tasks (l : list WorkflowTask.t) (w : t) : t :=
  mk (workflow_id w) (name w) (description w) l (status w) (progress w)
     (error_message w).

Definition set_status (s : WorkflowStatus) (w : t) : t :=
  mk (workflow_id w) (name w) (description w) (tasks w) s (progress w)
     (error_message w).

Definition set_progress (p : Q) (w : t) : t :=
  mk (workflow_id w) (name w) (description w) (tasks w) (status w) p
     (error_message w).

Definition set_error_message (m : option pystr) (w : t) : t :=
  mk (workflow_id w) (name w) (description w) (tasks w) (status w)
     (progress w) m.
End Workflow.

(** The part of [BaseAgent] the coordinator and the messaging channel
    touch.  Each registered id stands for its own agent object. *)
Module BaseAgent.
Record t := mk {
  agent_id : string;
  name : string;
  status : string;                       (* "idle", "working", "error" *)
  current_task : option string;          (* id of the task being run *)
  message_history : list Message.t;
  task_history : list TaskResult.t
}.

(** [add_message]: [self.message_history.append(message)] *)
Definition add_message (m : Message.t) (a : t) : t :=
  mk (agent_id a) (name a) (status a) (current_task a)
     (message_history a ++ [m]) (task_history a).
End BaseAgent.

(** ** Readiness resolution: [_get_ready_tasks] *)

(** A position in [workflow.tasks] stands for the reference to the task
    object stored there; the ready list, like Python's, holds references. *)
Definition task_ref : Type := nat * WorkflowTask.t.

Definition enumerate (l : list WorkflowTask.t) : list task_ref :=
  zip (seq 0 (length l)) l.

(** The handle [asyncio.create_task] returns for the coroutine started on
    the task at position [i]: still in flight, or run to its end.  The
    scheduler never reads the result or the exception a handle holds. *)
Inductive async_task :=
| InFlight (i : nat)
| Finished (i : nat).

(** The [continue] test of the loop body. *)
Definition skipped (completed_tasks : gset string) (running_tasks : gmap string async_task)
    (task : WorkflowTask.t) : bool :=
  bool_decide (WorkflowTask.task_id task ∈ completed_tasks)
  || bool_decide (is_Some (running_tasks !! WorkflowTask.task_id task))
  || bool_decide (WorkflowTask.status task ∈ ["completed"; "running"]).

(** [all(dep in completed_tasks for dep in task.dependencies)] *)
Definition dependencies_met (completed_tasks : gset string)
    (task : WorkflowTask.t) : bool :=
  forallb (λ dep, bool_decide (dep ∈ completed_tasks))
          (WorkflowTask.dependencies task).

Definition selected (completed_tasks : gset string) (running_tasks : gmap string async_task)
    (r : task_ref) : bool :=
  negb (skipped completed_tasks running_tasks r.2)
  && dependencies_met completed_tasks r.2.

(** [list.sort(key=lambda t: t.priority, reverse=True)].  Python's sort is
    stable, also with [reverse=True]: elements with equal keys keep their
    relative order.  A stable sort is determined by that property, so the
    stable insertion sort below returns the list Python returns. *)
Fixpoint insert_by_priority (x : task_ref) (l : list task_ref) : list task_ref :=
  match l with
  | [] => [x]
  | y :: l' =>
      if WorkflowTask.priority x.2 <? WorkflowTask.priority y.2
      then y :: insert_by_priority x l'
      else x :: l
  end.

Definition sort_by_priority_reverse (l : list task_ref) : list task_ref :=
  foldr insert_by_priority [] l.

Definition _get_ready_tasks (workflow : Workflow.t) (completed_tasks : gset string)
    (running_tasks : gmap string async_task) : list task_ref :=
  sort_by_priority_reverse
    (filter (λ r, selected completed_tasks running_tasks r = true)
            (enumerate (Workflow.tasks workflow))).

(** The order of the ready list: higher priority first, and among equal
    priorities the earlier position in [workflow.tasks] first. *)
Definition before (x y : task_ref) : Prop :=
  WorkflowTask.priority y.2 < WorkflowTask.priority x.2
  ∨ (WorkflowTask.priority x.2 = WorkflowTask.priority y.2 ∧ (x.1 < y.1)%nat).

(** ** The coordinator object *)

(** [TaskCoordinator.__init__]: the attributes that its methods read or
    write ([message_batch_size], [is_running] and [current_tasks] are set
    once and never used). *)
Module TaskCoordinator.
Record t := mk {
  agents : gmap string BaseAgent.t;
  workflows : gmap string Workflow.t;
  message_queue : list Message.t;
  task_history : list TaskResult.t;
  max_concurrent_tasks : Z;
  default_timeout : Z
}.

Definition init : t := mk ∅ ∅ [] [] 5 300.

Definition set_agents (a : gmap string BaseAgent.t) (c : t) : t :=
  mk a (workflows c) (message_queue c) (task_history c)
     (max_concurrent_tasks c) (default_timeout c).

Definition set_workflows (w : gmap string Workflow.t) (c : t) : t :=
  mk (agents c) w (message_queue c) (task_history c)
     (max_concurrent_tasks c) (default_timeout c).

Definition set_message_queue (q : list Message.t) (c : t) : t :=
  mk (agents c) (workflows c) q (task_history c)
     (max_concurrent_tasks c) (default_timeout c).

Definition set_task_history (h : list TaskResult.t) (c : t) : t :=
  mk (agents c) (workflows c) (message_queue c) h
     (max_concurrent_tasks c) (default_timeout c).
End TaskCoordinator.

(** A method call: what it raised or returned, and the coordinator it
    leaves behind. *)
Definition call (A : Type) : Type := (exn + A) * TaskCoordinator.t.

(** [register_agent] *)
Definition register_agent (self : TaskCoordinator.t) (agent : BaseAgent.t)
  : TaskCoordinator.t :=
  TaskCoordinator.set_agents
    (<[BaseAgent.agent_id agent := agent]> (TaskCoordinator.agents self)) self.

(** [unregister_agent] *)
Definition unregister_agent (self : TaskCoordinator.t) (agent_id : string)
  : TaskCoordinator.t :=
  if bool_decide (is_Some (TaskCoordinator.agents self !! agent_id))
  then TaskCoordinator.set_agents (delete agent_id (TaskCoordinator.agents self)) self
  else self.

(** [create_workflow] *)
Definition create_workflow (self : TaskCoordinator.t)
    (workflow_id name description : string) : Workflow.t * TaskCoordinator.t :=
  let workflow := Workflow.mk workflow_id name description [] IDLE 0%Q None in
  (workflow,
   TaskCoordinator.set_workflows
     (<[workflow_id := workflow]> (TaskCoordinator.workflows self)) self).

(** [add_task_to_workflow] *)
Definition add_task_to_workflow (self : TaskCoordinator.t) (workflow_id : string)
    (task : WorkflowTask.t) : call unit :=
  match TaskCoordinator.workflows self !! workflow_id with
  | None => (inl (ValueError ("工作流不存在: " +:+ workflow_id)), self)
  | Some workflow =>
      (inr tt,
       TaskCoordinator.set_workflows
         (<[workflow_id :=
              Workflow.set_tasks (Workflow.tasks workflow ++ [task]) workflow]>
            (TaskCoordinator.workflows self)) self)
  end.

(** Python's [x or d] on an optional int: [None] and [0] are falsy. *)
Definition int_or (x : option Z) (d : Z) : Z :=
  match x with
  | Some z => if z =? 0 then d else z
  | None => d
  end.

(** [create_task] *)
Definition create_task (self : TaskCoordinator.t)
    (task_id task_type agent_id data : string)
    (dependencies : option (list string)) (priority : Z) (timeout : option Z)
  : call WorkflowTask.t :=
  match TaskCoordinator.agents self !! agent_id with
  | None => (inl (ValueError ("Agent不存在: " +:+ agent_id)), self)
  | Some _ =>
      (inr (WorkflowTask.mk task_id task_type agent_id data
              (default [] dependencies) priority
              (int_or timeout (TaskCoordinator.default_timeout self))
              0 3 "pending" None),
       self)
  end.

(** ** Messaging: [send_message] *)

Definition send_message (self : TaskCoordinator.t)
    (sender_id receiver_id content message_type : string)
    (metadata : option (list (string * string))) : call unit :=
  match TaskCoordinator.agents self !! receiver_id with
  | None => (inl (ValueError ("接收者Agent不存在: " +:+ receiver_id)), self)
  | Some receiver_agent =>
      let message :=
        Message.mk sender_id receiver_id content message_type (default [] metadata) in
      let self1 :=
        TaskCoordinator.set_message_queue
          (TaskCoordinator.message_queue self ++ [message]) self in
      (inr tt,
       TaskCoordinator.set_agents
         (<[receiver_id := BaseAgent.add_message message receiver_agent]>
            (TaskCoordinator.agents self1)) self1)
  end.

(** ** The worker side: [BaseAgent.execute_task] *)



(** ** Task execution, timeout and retry: [_execute_single_task] *)

(** What [await asyncio.wait_for(agent.execute_task(task_data), timeout)]
    does on one attempt: the worker returned in time, the timeout fired
    ([asyncio.TimeoutError]), or the invocation raised another exception. *)
Inductive attempt :=
| Returns (result : TaskResult.t)
| TimesOut
| Raises (msg : string).           (* [str(e) = msg] *)

(** [str] of a Python int. *)
Definition str_int (z : Z) : string := NilZero.string_of_int (Z.to_int z).

(** f"任务超时: {task.task_id} (超时时间: {task.timeout}s)" *)
Definition timeout_error_msg (task : WorkflowTask.t) : string :=
  "任务超时: " +:+ WorkflowTask.task_id task +:+ " (超时时间: "
  +:+ str_int (WorkflowTask.timeout task) +:+ "s)".

(** f"任务执行失败: {task.task_id} - {str(e)}" *)
Definition failure_error_msg (task : WorkflowTask.t) (e : string) : string :=
  "任务执行失败: " +:+ WorkflowTask.task_id task +:+ " - " +:+ e.

(** The block shared by both [except] branches: build the failed
    [TaskResult], store it, set the status to "failed". *)
Definition record_failure (task : WorkflowTask.t) (error_msg : string)
  : WorkflowTask.t :=
  WorkflowTask.set_status "failed"
    (WorkflowTask.set_result
       (Some (TaskResult.mk (WorkflowTask.agent_id task)
                (WorkflowTask.task_id task) "failed" None (Some error_msg)))
       task).

(** [task.retry_count += 1; task.status = "pending"] *)
Definition schedule_retry (task : WorkflowTask.t) : WorkflowTask.t :=
  WorkflowTask.set_status "pending"
    (WorkflowTask.set_retry_count (WorkflowTask.retry_count task + 1) task).

(** What one call of [_execute_single_task] leaves behind.  [attempts]
    counts the worker invocations made by the call and its recursive
    calls; it is bookkeeping of the embedding, not program state. *)
Record single_run := mk_single_run {
  run_self : TaskCoordinator.t;
  run_task : WorkflowTask.t;
  run_outcome : exn + TaskResult.t;
  run_attempts : nat
}.

(** [_execute_single_task].  [worker n] is what the [n]-th worker
    invocation made for this task does.  The recursion of the source
    (a retry calls the method again from inside the [except] block) is
    kept; it ends because [max_retries - retry_count] decreases.

    Of the coordinator, the method itself writes [task_history] only.
    What the invoked [agent.execute_task] does to the agent object (its
    [status], [current_task] and own [task_history], see
    [BaseAgent_execute_task]) is not recorded in [run_self]: after a run
    that has invoked a worker, [TaskCoordinator.agents (run_self _)] tells
    which agents are registered, not what these three fields hold. *)
Equations? _execute_single_task (self : TaskCoordinator.t)
    (worker : nat → attempt) (n : nat) (task : WorkflowTask.t) : single_run
  by wf (Z.to_nat (WorkflowTask.max_retries task - WorkflowTask.retry_count task)) lt :=
_execute_single_task self worker n task
  with TaskCoordinator.agents self !! WorkflowTask.agent_id task := {
  | None =>
      (* [agent = self.agents[task.agent_id]], outside the [try] *)
      mk_single_run self task (inl (KeyError (WorkflowTask.agent_id task))) n
  | Some agent with worker n := {
    | Returns result =>
        mk_single_run
          (TaskCoordinator.set_task_history
             (TaskCoordinator.task_history self ++ [result]) self)
          (WorkflowTask.set_status "completed"
             (WorkflowTask.set_result (Some result) task))
          (inr result) (S n)
    | TimesOut
        with Z_lt_dec (WorkflowTask.retry_count task) (WorkflowTask.max_retries task) := {
      | left _ =>
          _execute_single_task self worker (S n)
            (schedule_retry (record_failure task (timeout_error_msg task)))
      | right _ =>
          mk_single_run self (record_failure task (timeout_error_msg task))
            (inl (PyException (Lit (timeout_error_msg task)))) (S n) }
    | Raises e
        with Z_lt_dec (WorkflowTask.retry_count task) (WorkflowTask.max_retries task) := {
      | left _ =>
          _execute_single_task self worker (S n)
            (schedule_retry (record_failure task (failure_error_msg task e)))
      | right _ =>
          mk_single_run self (record_failure task (failure_error_msg task e))
            (inl (WorkerException e)) (S n) } } }.
Proof.
  all: simpl; lia.
Qed.

(** ** The scheduler: [_execute_workflow_tasks] *)

(** The local state of one run of [_execute_workflow_tasks], together with
    the two objects it mutates.  [progress_log] lists, oldest first, the
    values assigned to [workflow.progress] during the run; it is
    bookkeeping of the embedding. *)
Record sched := mk_sched {
  sched_self : TaskCoordinator.t;
  sched_workflow : Workflow.t;
  completed_tasks : gset string;
  running_tasks : gmap string async_task;
  progress_log : list Q
}.

(** [l[:k]] with Python's reading of a negative bound. *)
Definition slice_to {A} (l : list A) (k : Z) : list A :=
  if 0 <=? k then take (Z.to_nat k) l
  else take (Z.to_nat (Z.of_nat (length l) + k)) l.

(** One turn of [for task in tasks_to_start].  A handle already stored
    under the same task id is replaced and never looked at again. *)
Definition start_task (s : sched) (r : task_ref) : sched :=
  mk_sched (sched_self s)
    (Workflow.set_tasks
       (alter (WorkflowTask.set_status "running") r.1
          (Workflow.tasks (sched_workflow s)))
       (sched_workflow s))
    (completed_tasks s)
    (<[WorkflowTask.task_id r.2 := InFlight r.1]> (running_tasks s))
    (progress_log s).

Definition start_tasks (s : sched) (tasks_to_start : list task_ref) : sched :=
  foldl start_task s tasks_to_start.

Definition is_finished (h : async_task) : bool :=
  match h with Finished _ => true | InFlight _ => false end.

(** [asyncio.wait(running_tasks.values(), return_when=FIRST_COMPLETED)]
    returns the handles that are done, at least one.  Which coroutines
    finish first is decided by the event loop and the workers: [hint]
    names the task ids whose coroutines finish during this wait.  Handles
    already done are always returned; when none is done and the hint names
    no running task, every running coroutine finishes. *)
Definition wait_first_completed (running : gmap string async_task)
    (hint : list string) : gset string :=
  let done :=
    dom (filter (λ kv, is_finished kv.2 = true) running)
    ∪ (list_to_set hint ∩ dom running) in
  if decide (done = ∅) then dom running else done.

(** The coroutine behind a handle runs [_execute_single_task] on its task
    object; its effects are in place once the handle is done.  What a
    coroutine still in flight has done to its task so far is not read by
    the scheduler, which skips such a task by its id. *)
Definition run_coroutine (workers : string → nat → attempt) (s : sched)
    (i : nat) : sched :=
  match Workflow.tasks (sched_workflow s) !! i with
  | None => s
  | Some task =>
      let r := _execute_single_task (sched_self s)
                 (workers (WorkflowTask.task_id task)) 0%nat task in
      mk_sched (run_self r)
        (Workflow.set_tasks
           (<[i := run_task r]> (Workflow.tasks (sched_workflow s)))
           (sched_workflow s))
        (completed_tasks s) (running_tasks s) (progress_log s)
  end.

(** [len(completed_tasks) / len(workflow.tasks) * 100] *)
Definition progress_of (completed_tasks : gset string)
    (tasks : list WorkflowTask.t) : Q :=
  (inject_Z (Z.of_nat (size completed_tasks))
   / inject_Z (Z.of_nat (length tasks)) * 100)%Q.

(** One turn of [for async_task in done], for the handle stored under
    [task_id].  [if task_id:] is false for the empty string, which then
    stays in [running_tasks] with its finished handle. *)
Definition handle_done (workers : string → nat → attempt) (s : sched)
    (task_id : string) : sched :=
  match running_tasks s !! task_id with
  | None => s
  | Some h =>
      let s1 := match h with
                | InFlight i => run_coroutine workers s i
                | Finished _ => s
                end in
      let i := match h with InFlight i => i | Finished i => i end in
      if bool_decide (task_id ≠ "") then
        let completed := completed_tasks s1 ∪ {[task_id]} in
        let p := progress_of completed (Workflow.tasks (sched_workflow s1)) in
        mk_sched (sched_self s1)
          (Workflow.set_progress p (sched_workflow s1))
          completed
          (delete task_id (running_tasks s1))
          (progress_log s1 ++ [p])
      else
        mk_sched (sched_self s1) (sched_workflow s1) (completed_tasks s1)
          (<[task_id := Finished i]> (running_tasks s1)) (progress_log s1)
  end.

(** [if running_tasks: done, pending = await asyncio.wait(...); for ...] *)
Definition await_and_collect (workers : string → nat → attempt)
    (hint : list string) (s : sched) : sched :=
  if decide (running_tasks s = ∅) then s
  else foldl (handle_done workers) s
         (elements (wait_first_completed (running_tasks s) hint)).

(** The list built by the dead-end check. *)
Definition remaining_tasks (workflow : Workflow.t) (completed_tasks : gset string)
  : list WorkflowTask.t :=
  filter (λ t, WorkflowTask.task_id t ∉ completed_tasks) (Workflow.tasks workflow).

Definition unresolved_pairs (workflow : Workflow.t) (completed_tasks : gset string)
  : list (string * string) :=
  flat_map
    (λ task, map (λ dep, (WorkflowTask.task_id task, dep))
               (filter (λ dep, dep ∉ completed_tasks)
                       (WorkflowTask.dependencies task)))
    (remaining_tasks workflow completed_tasks).

(** f"{task.task_id} -> {dep}" *)
Definition render_pair (p : string * string) : string := p.1 +:+ " -> " +:+ p.2.

Definition unresolved_deps (workflow : Workflow.t) (completed_tasks : gset string)
  : list string :=
  map render_pair (unresolved_pairs workflow completed_tasks).

(** [ready_tasks], [available_slots] and [tasks_to_start] at the top of a
    turn of the [while] loop. *)
Definition ready_of (s : sched) : list task_ref :=
  _get_ready_tasks (sched_workflow s) (completed_tasks s) (running_tasks s).

Definition available_slots (s : sched) : Z :=
  TaskCoordinator.max_concurrent_tasks (sched_self s)
  - Z.of_nat (size (running_tasks s)).

Definition tasks_to_start (s : sched) : list task_ref :=
  slice_to (ready_of s) (available_slots s).

(** How one turn of the [while] loop ends. *)
Inductive turn :=
| Continue (s : sched)
| Break (s : sched)
| Raise (e : exn) (s : sched).

(** The body of the [while] loop.  [ready_tasks] is computed once, at the
    top; the dead-end check at the bottom reads that same list. *)
Definition loop_body (workers : string → nat → attempt) (hint : list string)
    (s : sched) : turn :=
  let ready_tasks := ready_of s in
  let s1 := start_tasks s (tasks_to_start s) in
  let s2 := await_and_collect workers hint s1 in
  if bool_decide (ready_tasks = []) && bool_decide (running_tasks s2 = ∅) then
    match remaining_tasks (sched_workflow s2) (completed_tasks s2) with
    | [] => Break s2
    | _ :: _ =>
        Raise (PyException
                 (UnresolvedDepsMsg
                    (unresolved_deps (sched_workflow s2) (completed_tasks s2))))
              s2
    end
  else Continue s2.

(** How a run of the loop ends: it returned, it raised, or it is still
    going when the fuel of the embedding is used up. *)
Inductive loop_end :=
| Returned (s : sched)
| Raised (e : exn) (s : sched)
| Unfinished (s : sched).

(** [while len(completed_tasks) < len(workflow.tasks): ...], one entry of
    [hints] per turn. *)
Fixpoint while_loop (fuel : nat) (workers : string → nat → attempt)
    (hints : list (list string)) (s : sched) : loop_end :=
  if (size (completed_tasks s) <? length (Workflow.tasks (sched_workflow s)))%nat
  then
    match fuel with
    | O => Unfinished s
    | S fuel' =>
        match loop_body workers (hd [] hints) s with
        | Continue s' => while_loop fuel' workers (tl hints) s'
        | Break s' => Returned s'
        | Raise e s' => Raised e s'
        end
    end
  else Returned s.

(** The state in which [_execute_workflow_tasks] enters its loop. *)
Definition initial (self : TaskCoordinator.t) (workflow : Workflow.t) : sched :=
  mk_sched self workflow ∅ ∅ [].

Definition _execute_workflow_tasks (fuel : nat) (workers : string → nat → attempt)
    (hints : list (list string)) (self : TaskCoordinator.t)
    (workflow : Workflow.t) : loop_end :=
  while_loop fuel workers hints (initial self workflow).

(** ** The workflow life cycle: [execute_workflow] *)

(** What a call of [execute_workflow] leaves behind: what it raised or
    returned ([None] while the call has not ended, the fuel of the
    embedding being used up), the coordinator, and the values it assigned
    to [workflow.progress]. *)
Record execution := mk_execution {
  exec_outcome : option (exn + Workflow.t);
  exec_self : TaskCoordinator.t;
  exec_progress_log : list Q
}.

(** The workflow object is shared with [self.workflows]: what the run did
    to it is what the dictionary holds afterwards. *)
Definition store_workflow (workflow_id : string) (workflow : Workflow.t)
    (self : TaskCoordinator.t) : TaskCoordinator.t :=
  TaskCoordinator.set_workflows
    (<[workflow_id := workflow]> (TaskCoordinator.workflows self)) self.

Definition execute_workflow (fuel : nat) (workers : string → nat → attempt)
    (hints : list (list string)) (self : TaskCoordinator.t)
    (workflow_id : string) : execution :=
  match TaskCoordinator.workflows self !! workflow_id with
  | None =>
      mk_execution (Some (inl (ValueError ("工作流不存在: " +:+ workflow_id)))) self []
  | Some workflow =>
      let workflow := Workflow.set_status RUNNING workflow in
      match _execute_workflow_tasks fuel workers hints self workflow with
      | Returned s =>
          let workflow :=
            Workflow.set_progress 100%Q
              (Workflow.set_status COMPLETED (sched_workflow s)) in
          mk_execution (Some (inr workflow))
            (store_workflow workflow_id workflow (sched_self s))
            (progress_log s ++ [100%Q])
      | Raised e s =>
          let workflow :=
            Workflow.set_error_message (Some (str e))
              (Workflow.set_status FAILED (sched_workflow s)) in
          mk_execution (Some (inl e))
            (store_workflow workflow_id workflow (sched_self s))
            (progress_log s)
      | Unfinished s =>
          mk_execution None
            (store_workflow workflow_id (sched_workflow s) (sched_self s))
            (progress_log s)
      end
  end.

(** ** Messaging: [broadcast_message] *)

(** [for agent_id in self.agents: if ...: self.send_message(...)].  A
    Python dict is iterated in the order its keys were inserted, which the
    map of the embedding does not record: [agent_ids] is that order.  An
    exception of [send_message] would end the loop. *)
Definition broadcast_message (agent_ids : list string) (self : TaskCoordinator.t)
    (sender_id content message_type : string)
    (exclude_agents : option (list string)) : call unit :=
  foldl
    (λ (acc : call unit) agent_id,
       match acc.1 with
       | inl _ => acc
       | inr _ =>
           if bool_decide (agent_id ≠ sender_id)
              && bool_decide (agent_id ∉ default [] exclude_agents)
           then send_message acc.2 sender_id agent_id content message_type None
           else acc
       end)
    (inr tt, self) agent_ids.

(** ** Status reports *)

#[global] Instance WorkflowStatus_eq_dec : EqDecision WorkflowStatus.
Proof. solve_decision. Defined.

(** [WorkflowStatus.value] *)
Definition status_value (st : WorkflowStatus) : string :=
  match st with
  | IDLE => "idle"
  | RUNNING => "running"
  | PAUSED => "paused"
  | COMPLETED => "completed"
  | FAILED => "failed"
  | CANCELLED => "cancelled"
  end.

(** [len([t for t in workflow.tasks if t.status == st])] *)
Definition count_status (st : string) (tasks : list WorkflowTask.t) : nat :=
  length (filter (λ t, WorkflowTask.status t = st) tasks).

(** The dictionary [get_workflow_status] returns, without its three
    time stamps. *)
Module WorkflowReport.
Record t := mk {
  workflow_id : string;
  name : string;
  status : string;
  progress : Q;
  total : nat;
  pending : nat;
  running : nat;
  completed : nat;
  failed : nat;
  error_message : option pystr
}.
End WorkflowReport.

(** [get_workflow_status] *)
Definition get_workflow_status (self : TaskCoordinator.t) (workflow_id : string)
  : call WorkflowReport.t :=
  match TaskCoordinator.workflows self !! workflow_id with
  | None => (inl (ValueError ("工作流不存在: " +:+ workflow_id)), self)
  | Some workflow =>
      (inr (WorkflowReport.mk
              (Workflow.workflow_id workflow) (Workflow.name workflow)
              (status_value (Workflow.status workflow))
              (Workflow.progress workflow)
              (length (Workflow.tasks workflow))
              (count_status "pending" (Workflow.tasks workflow))
              (count_status "running" (Workflow.tasks workflow))
              (count_status "completed" (Workflow.tasks workflow))
              (count_status "failed" (Workflow.tasks workflow))
              (Workflow.error_message workflow)),
       self)
  end.

(** [len([w for w in self.workflows.values() if w.status == status])] *)
Definition count_workflows (st : WorkflowStatus)
    (workflows : gmap string Workflow.t) : nat :=
  size (filter (λ kv, Workflow.status kv.2 = st) workflows).

(** [len([a for a in self.agents.values() if a.status == st])] *)
Definition count_agents (st : string) (agents : gmap string BaseAgent.t) : nat :=
  size (filter (λ kv, BaseAgent.status kv.2 = st) agents).

(** The dictionary [get_system_status] returns; [coordinator_status] is
    always "idle", [is_running] being set once and never changed. *)
Module SystemReport.
Record t := mk {
  coordinator_status : string;
  workflows_total : nat;
  workflows_stats : WorkflowStatus → nat;
  agents_total : nat;
  agents_idle : nat;
  agents_working : nat;
  agents_error : nat;
  total_executed : nat;
  success_rate : Q;
  messages_total : nat
}.
End SystemReport.

(** [get_system_status]; the success rate is the exact rational of
    [len(successes) / len(self.task_history) * 100], and [0] for an empty
    history. *)
Definition get_system_status (self : TaskCoordinator.t) : SystemReport.t :=
  SystemReport.mk "idle"
    (size (TaskCoordinator.workflows self))
    (λ st, count_workflows st (TaskCoordinator.workflows self))
    (size (TaskCoordinator.agents self))
    (count_agents "idle" (TaskCoordinator.agents self))
    (count_agents "working" (TaskCoordinator.agents self))
    (count_agents "error" (TaskCoordinator.agents self))
    (length (TaskCoordinator.task_history self))
    (match TaskCoordinator.task_history self with
     | [] => 0%Q
     | _ :: _ =>
         (inject_Z
            (Z.of_nat
               (length (filter (λ t, TaskResult.status t = "success")
                          (TaskCoordinator.task_history self))))
          / inject_Z (Z.of_nat (length (TaskCoordinator.task_history self)))
          * 100)%Q
     end)
    (length (TaskCoordinator.message_queue self)).

(** ** Clearing and resetting *)

(** [BaseAgent.reset] *)
Definition BaseAgent_reset (self : BaseAgent.t) : BaseAgent.t :=
  BaseAgent.mk (BaseAgent.agent_id self) (BaseAgent.name self) "idle" None [] [].

(** [clear_history] *)
Definition clear_history (self : TaskCoordinator.t) : TaskCoordinator.t :=
  TaskCoordinator.set_task_history [] (TaskCoordinator.set_message_queue [] self).

(** [reset_system] *)
Definition reset_system (self : TaskCoordinator.t) : TaskCoordinator.t :=
  clear_history
    (TaskCoordinator.set_workflows ∅
       (TaskCoordinator.set_agents
          (BaseAgent_reset <$> TaskCoordinator.agents self) self)).

(** ** The conversation context of an agent *)

(** [l[i:]] with Python's reading of a negative bound. *)
Definition slice_from {A} (l : list A) (i : Z) : list A :=
  if 0 <=? i then drop (Z.to_nat i) l
  else drop (Z.to_nat (Z.of_nat (length l) + i)) l.

(** One entry [{"role": ..., "content": ...}] of the context. *)
Definition context_entry : Type := string * string.

(** The body of the loop over [recent_messages]. *)
Definition context_of_message (agent_id : string) (msg : Message.t)
  : option context_entry :=
  if bool_decide (Message.receiver msg = agent_id)
  then Some ("user", Message.content msg)
  else if bool_decide (Message.sender msg = agent_id)
       then Some ("assistant", Message.content msg)
       else None.

(** [get_conversation_context]; [system_prompt] is what the abstract
    [get_system_prompt] of the concrete agent returns. *)
Definition get_conversation_context (system_prompt : string) (self : BaseAgent.t)
    (max_messages : Z) : list context_entry :=
  let recent_messages :=
    match BaseAgent.message_history self with
    | [] => []
    | _ :: _ => slice_from (BaseAgent.message_history self) (- max_messages)
    end in
  ("system", system_prompt)
  :: omap (context_of_message (BaseAgent.agent_id self)) recent_messages.

(** ** A caller: [MultiAgentWorkflow.create_custom_workflow] *)

(** One task definition of the [tasks] argument: the keys read with
    [task_def[...]] are fields, the keys read with [task_def.get(...)] are
    optional. *)
Module TaskDef.
Record t := mk {
  id : option string;
  type : string;
  agent_id : string;
  data : string;
  dependencies : option (list string);
  priority : option Z;
  timeout : option Z
}.
End TaskDef.

(** One turn of [for task_def in tasks].  [workflow] is the object held
    by the coordinator, so [len(workflow.tasks)] is read there. *)
Definition add_custom_task (workflow_id : string) (self : TaskCoordinator.t)
    (task_def : TaskDef.t) : call unit :=
  let position :=
    match TaskCoordinator.workflows self !! workflow_id with
    | Some workflow => length (Workflow.tasks workflow)
    | None => O
    end in
  match
    create_task self
      (default (workflow_id +:+ "_" +:+ str_int (Z.of_nat position))
               (TaskDef.id task_def))
      (TaskDef.type task_def) (TaskDef.agent_id task_def) (TaskDef.data task_def)
      (Some (default [] (TaskDef.dependencies task_def)))
      (default 5 (TaskDef.priority task_def))
      (Some (default 300 (TaskDef.timeout task_def)))
  with
  | (inl e, self') => (inl e, self')
  | (inr task, self') => add_task_to_workflow self' workflow_id task
  end.

(** [create_custom_workflow]; [workflow_id] is
    f"custom_{int(datetime.now().timestamp())}", read off the clock. *)
Definition create_custom_workflow (workflow_id : string)
    (self : TaskCoordinator.t) (workflow_name : string) (tasks : list TaskDef.t)
  : call Workflow.t :=
  let created :=
    create_workflow self workflow_id workflow_name "自定义多Agent工作流" in
  let looped :=
    foldl
      (λ (acc : call unit) task_def,
         match acc.1 with
         | inl _ => acc
         | inr _ => add_custom_task workflow_id acc.2 task_def
         end)
      (inr tt, created.2) tasks in
  match looped.1 with
  | inl e => (inl e, looped.2)
  | inr _ =>
      (inr (default created.1 (TaskCoordinator.workflows looped.2 !! workflow_id)),
       looped.2)
  end.

(** ** The states a run goes through *)

(** The [while] condition. *)
Definition loop_condition (s : sched) : Prop :=
  (size (completed_tasks s) < length (Workflow.tasks (sched_workflow s)))%nat.

(** [turns workers hints s k s']: starting at the top of the loop in state
    [s], the loop makes [k] full turns, consuming one entry of [hints] at
    each, and is back at the top in state [s']. *)
Inductive turns (workers : string → nat → attempt)
  : list (list string) → sched → nat → sched → Prop :=
| turns_O hints s : turns workers hints s O s
| turns_S hints s s' k s'' :
    loop_condition s →
    loop_body workers (hd [] hints) s = Continue s' →
    turns workers (tl hints) s' k s'' →
    turns workers hints s (S k) s''.

(** Every point of a run at which the scheduler holds control: the top of
    a turn, after each turn of the dispatch loop, and after each turn of
    the loop over [done]. *)
Inductive visits (workers : string → nat → attempt) (self : TaskCoordinator.t)
    (workflow : Workflow.t) : sched → Prop :=
| visits_top hints k s :
    turns workers hints (initial self workflow) k s →
    visits workers self workflow s
| visits_dispatch hints k s j :
    turns workers hints (initial self workflow) k s →
    loop_condition s →
    visits workers self workflow (start_tasks s (take j (tasks_to_start s)))
| visits_collect hints k s hint j :
    turns workers hints (initial self workflow) k s →
    loop_condition s →
    running_tasks (start_tasks s (tasks_to_start s)) ≠ ∅ →
    visits workers self workflow
      (foldl (handle_done workers) (start_tasks s (tasks_to_start s))
         (take j (elements
                    (wait_first_completed
                       (running_tasks (start_tasks s (tasks_to_start s)))
                       hint)))).

(** ** What every state of a run satisfies *)

(** The ids of the tasks of the workflow, in order. *)
Definition ids (s : sched) : list string :=
  WorkflowTask.task_id <$> Workflow.tasks (sched_workflow s).

(** [invariant s0 s]: what holds of a state [s] of a run that entered the
    loop in state [s0]. *)
Record invariant (s0 s : sched) : Prop := mk_invariant {
  inv_ids : ids s = ids s0;
  inv_status :
    Workflow.status (sched_workflow s) = Workflow.status (sched_workflow s0);
  inv_max :
    TaskCoordinator.max_concurrent_tasks (sched_self s)
    = TaskCoordinator.max_concurrent_tasks (sched_self s0);
  inv_completed : completed_tasks s ⊆ list_to_set (ids s);
  inv_running : dom (running_tasks s) ⊆ list_to_set (ids s);
  inv_sorted : StronglySorted Qle (progress_log s);
  inv_bound :
    Forall (λ q, (q <= progress_of (completed_tasks s)
                        (Workflow.tasks (sched_workflow s)))%Q)
           (progress_log s);
  inv_progress :
    Workflow.progress (sched_workflow s)
    = List.last (progress_log s) (Workflow.progress (sched_workflow s0))
}.

(** No id is both in flight and completed. *)
Definition apart (s : sched) : Prop := dom (running_tasks s) ## completed_tasks s.

(** ** Scenarios used to exercise the embedding *)

Definition researcher : BaseAgent.t :=
  BaseAgent.mk "researcher_001" "Researcher" "idle" None [] [].

(** A coordinator with one registered agent and one workflow ["wf"]
    holding [tasks]. *)
Definition coordinator_with (tasks : list WorkflowTask.t) : TaskCoordinator.t :=
  TaskCoordinator.set_workflows
    {[ "wf" := Workflow.mk "wf" "demo" "" tasks IDLE 0%Q None ]}
    (register_agent TaskCoordinator.init researcher).

(** A task as [create_task] builds it for the registered agent, with the
    given retry budget. *)
Definition task_for (task_id : string) (dependencies : list string)
    (max_retries : Z) : WorkflowTask.t :=
  WorkflowTask.mk task_id "research_topic" "researcher_001" "" dependencies
    1 300 0 max_retries "pending" None.

(** A worker invocation that succeeds. *)
Definition succeeds (task_id : string) : attempt :=
  Returns (TaskResult.mk "researcher_001" task_id "success" (Some "report") None).

Definition succeeds_always (task_id : string) (n : nat) : attempt :=
  succeeds task_id.

(** The worker of task "t1" never answers in time; every other
    invocation succeeds. *)
Definition t1_times_out (task_id : string) (n : nat) : attempt :=
  if bool_decide (task_id = "t1") then TimesOut else succeeds task_id.

(** Every invocation raises. *)
Definition always_raises (task_id : string) (n : nat) : attempt := Raises "boom".

(** A task that depends on itself. *)
Definition self_dependent : list WorkflowTask.t := [task_for "X" ["X"] 3].

(** Two tasks that depend on each other. *)
Definition mutually_dependent : list WorkflowTask.t :=
  [task_for "A" ["B"] 3; task_for "B" ["A"] 3].

(** Two tasks, the second depending on the first. *)
Definition two_tasks : list WorkflowTask.t :=
  [task_for "t1" [] 3; task_for "t2" ["t1"] 3].

Definition two_tasks_workflow : Workflow.t :=
  Workflow.mk "wf" "demo" "" two_tasks IDLE 0%Q None.

(** The ids that have been started so far in a run: those in flight and
    those completed. *)
Definition dispatched (s : sched) : gset string :=
  dom (running_tasks s) ∪ completed_tasks s.

(** [self'] is [self] with results appended to [task_history]. *)
Definition history_extended (self self' : TaskCoordinator.t) : Prop :=
  ∃ extra,
    self' = TaskCoordinator.set_task_history
              (TaskCoordinator.task_history self ++ extra) self.

(** The state a turn of the loop leaves. *)
Definition after_turn (workers : string → nat → attempt) (hint : list string)
    (s : sched) : sched :=
  match loop_body workers hint s with
  | Continue s' | Break s' | Raise _ s' => s'
  end.

(** A workflow as a finished run leaves it: both tasks "completed". *)
Definition finished_workflow : Workflow.t :=
  Workflow.mk "wf" "demo" ""
    [WorkflowTask.set_status "completed" (task_for "t1" [] 3);
     WorkflowTask.set_status "completed" (task_for "t2" ["t1"] 3)]
    COMPLETED 100%Q None.

Definition finished_coordinator : TaskCoordinator.t :=
  TaskCoordinator.mk {[ "researcher_001" := researcher ]}
    {[ "wf" := finished_workflow ]} [] [] 5 300.

(** A task whose coroutine has run to its end with its agent registered:
    it is "completed" or "failed" and holds the result of its last
    attempt. *)
Definition settled (task : WorkflowTask.t) : Prop :=
  (WorkflowTask.status task = "completed" ∨ WorkflowTask.status task = "failed")
  ∧ is_Some (WorkflowTask.result task).

(** What holds of the states of a run over a workflow whose task ids are
    distinct and not empty and whose agents are all registered. *)
Record run_invariant (s : sched) : Prop := mk_run_invariant {
  ri_nodup : NoDup (ids s);
  ri_nonempty : "" ∉ ids s;
  ri_agents :
    ∀ i task, Workflow.tasks (sched_workflow s) !! i = Some task →
      is_Some (TaskCoordinator.agents (sched_self s) !! WorkflowTask.agent_id task);
  ri_apart : apart s;
  ri_running :
    ∀ k h, running_tasks s !! k = Some h →
      ∃ i, h = InFlight i ∧ ids s !! i = Some k;
  ri_completed : completed_tasks s ⊆ list_to_set (ids s);
  ri_settled :
    ∀ i task, Workflow.tasks (sched_workflow s) !! i = Some task →
      WorkflowTask.task_id task ∈ completed_tasks s → settled task
}.

(** A result a worker returns. *)
Definition report_of (task_id : string) : TaskResult.t :=
  TaskResult.mk "researcher_001" task_id "success" (Some "report") None.

(** A worker that times out, then raises, then succeeds. *)
Definition fails_twice (n : nat) : attempt :=
  match n with
  | O => TimesOut
  | S O => Raises "boom"
  | _ => Returns (report_of "t1")
  end.

(** The workflow [execute_workflow] returns for [two_tasks] when "t1"
    never answers in time. *)
Definition returned_two_tasks : Workflow.t :=
  match exec_outcome
          (execute_workflow 3 t1_times_out [] (coordinator_with two_tasks) "wf")
  with
  | Some (inr workflow) => workflow
  | _ => two_tasks_workflow
  end.

(** The message [broadcast_message] sends to [agent_id]. *)
Definition broadcast_to (sender_id content message_type agent_id : string)
  : Message.t :=
  Message.mk sender_id agent_id content message_type [].

(** The agents a broadcast reaches: everyone but the sender and the
    excluded ids. *)
Definition reached (sender_id : string) (exclude_agents : option (list string))
    (agent_id : string) : Prop :=
  agent_id ≠ sender_id ∧ agent_id ∉ default [] exclude_agents.

#[global] Instance reached_dec sender_id exclude_agents agent_id :
  Decision (reached sender_id exclude_agents agent_id).
Proof. unfold reached. apply _. Defined.

(** A coordinator with two registered agents. *)
Definition planner : BaseAgent.t :=
  BaseAgent.mk "planner_001" "Planner" "idle" None [] [].

Definition two_agents : TaskCoordinator.t :=
  register_agent (register_agent TaskCoordinator.init researcher) planner.

(** An agent that received one message, sent one, and holds a third
    that does not involve it. *)
Definition talkative : BaseAgent.t :=
  BaseAgent.mk "researcher_001" "Researcher" "idle" None
    [Message.mk "planner_001" "researcher_001" "plan" "text" [];
     Message.mk "researcher_001" "planner_001" "findings" "text" [];
     Message.mk "planner_001" "writer_001" "draft" "text" []] [].

(** The task [create_custom_workflow] builds from the definition at
    position [i] of [tasks], for a coordinator whose default timeout is
    [default_timeout]. *)
Definition custom_task (default_timeout : Z) (workflow_id : string) (i : nat)
    (task_def : TaskDef.t) : WorkflowTask.t :=
  WorkflowTask.mk
    (default (workflow_id +:+ "_" +:+ str_int (Z.of_nat i)) (TaskDef.id task_def))
    (TaskDef.type task_def) (TaskDef.agent_id task_def) (TaskDef.data task_def)
    (default [] (TaskDef.dependencies task_def))
    (default 5 (TaskDef.priority task_def))
    (match TaskDef.timeout task_def with
     | Some z => if z =? 0 then default_timeout else z
     | None => 300
     end)
    0 3 "pending" None.

(** Two task definitions for the registered agent, the first with every
    optional key absent. *)
Definition two_task_defs : list TaskDef.t :=
  [TaskDef.mk None "research" "researcher_001" "topic" None None None;
   TaskDef.mk (Some "summary") "research" "researcher_001" "notes"
     (Some ["custom_1_0"]) (Some 8) (Some 0)].

(** A task definition for an agent that is not registered. *)
Definition stray_task_def : TaskDef.t :=
  TaskDef.mk None "writing" "writer_001" "draft" None None None.

(** The coordinator holds the agents [agents0], and position [i] of the
    workflow holds [task] as it was or marked "running". *)
Definition untouched (agents0 : gmap string BaseAgent.t) (i : nat)
    (task : WorkflowTask.t) (s : sched) : Prop :=
  TaskCoordinator.agents (sched_self s) = agents0
  ∧ (Workflow.tasks (sched_workflow s) !! i = Some task
     ∨ Workflow.tasks (sched_workflow s) !! i
       = Some (WorkflowTask.set_status "running" task)).

(** A task for an agent that is not registered. *)
Definition orphan_task : WorkflowTask.t :=
  WorkflowTask.mk "t1" "writing" "writer_001" "draft" [] 5 300 0 3 "pending" None.

(** The coordinator that a first run of [two_tasks], in which every
    worker succeeds, leaves behind. *)
Definition after_first_run : TaskCoordinator.t :=
  exec_self (execute_workflow 3 succeeds_always [] (coordinator_with two_tasks) "wf").

(** That coordinator after a third task has been added to the workflow. *)
Definition after_first_run_extended : TaskCoordinator.t :=
  (add_task_to_workflow after_first_run "wf" (task_for "t3" [] 3)).2.

(** A task of priority 9. *)
Definition urgent_task : WorkflowTask.t :=
  WorkflowTask.mk "urgent" "research_topic" "researcher_001" "" [] 9 300 0 3
    "pending" None.

(** The state in which a coordinator with a single slot enters the loop
    for a workflow holding a task of priority 1 followed by one of
    priority 9. *)
Definition one_slot_state : sched :=
  initial
    (TaskCoordinator.mk {[ "researcher_001" := researcher ]} ∅ [] [] 1 300)
    (Workflow.mk "wf" "demo" "" [task_for "low" [] 3; urgent_task] RUNNING 0%Q None).

(** * Properties *)

(** ** Readiness resolution *)

Section ready.

Implicit Types (l : list task_ref) (x y : task_ref).

Lemma elem_of_enumerate (tasks : list WorkflowTask.t) i task :
  (i, task) ∈ enumerate tasks ↔ tasks !! i = Some task.
Proof.
  unfold enumerate. rewrite list_elem_of_lookup. split.
  - intros [j Hj]. apply lookup_zip_with_Some in Hj as (a & b & Heq & Ha & Hb).
    injection Heq as -> ->. apply lookup_seq in Ha as [-> _]. done.
  - intros Hi. exists i. apply lookup_zip_with_Some. exists i, task.
    split; [done|]. split; [|done].
    apply lookup_seq. split; [done|]. by eapply lookup_lt_Some.
Qed.

Lemma enumerate_ascending_from (tasks : list WorkflowTask.t) (j : nat) :
  StronglySorted (λ x y, (x.1 < y.1)%nat) (zip (seq j (length tasks)) tasks).
Proof.
  revert j. induction tasks as [|t tasks IH]; intros j; simpl.
  - constructor.
  - constructor; [apply IH|].
    apply Forall_forall. intros [i u] Hin. simpl.
    apply list_elem_of_lookup in Hin as [k Hk].
    apply lookup_zip_with_Some in Hk as (a & b & Heq & Ha & _).
    injection Heq as -> ->. apply lookup_seq in Ha as [-> _]. lia.
Qed.

Lemma filter_ascending (P : task_ref → Prop) `{!∀ x, Decision (P x)} l :
  StronglySorted (λ x y, (x.1 < y.1)%nat) l →
  StronglySorted (λ x y, (x.1 < y.1)%nat) (filter P l).
Proof.
  induction 1 as [|x l Hl IH Hx]; [constructor|].
  rewrite filter_cons. destruct (decide (P x)); [|done].
  constructor; [done|].
  apply Forall_forall. intros y Hy. apply list_elem_of_filter in Hy as [_ Hy].
  rewrite Forall_forall in Hx. by apply Hx.
Qed.

Lemma insert_by_priority_perm x l : insert_by_priority x l ≡ₚ x :: l.
Proof.
  induction l as [|y l IH]; simpl; [done|].
  destruct (_ <? _); [|done]. rewrite IH. apply Permutation_swap.
Qed.

Lemma sort_by_priority_reverse_perm l : sort_by_priority_reverse l ≡ₚ l.
Proof.
  induction l as [|x l IH]; simpl; [done|].
  rewrite insert_by_priority_perm. by f_equiv.
Qed.

Lemma insert_by_priority_sorted x l :
  StronglySorted before l →
  Forall (λ y, (x.1 < y.1)%nat) l →
  StronglySorted before (insert_by_priority x l).
Proof.
  induction 1 as [|y l Hl IH Hy]; intros Hx; simpl.
  - repeat constructor.
  - apply Forall_cons in Hx as [Hxy Hx].
    destruct (Z.ltb_spec (WorkflowTask.priority x.2) (WorkflowTask.priority y.2)).
    + constructor; [by apply IH|].
      rewrite insert_by_priority_perm. constructor; [by left|done].
    + constructor; [by constructor|].
      constructor.
      * unfold before. destruct (decide (WorkflowTask.priority x.2
                                         = WorkflowTask.priority y.2)); [by right|left; lia].
      * rewrite Forall_forall in Hy, Hx. apply Forall_forall. intros z Hz.
        specialize (Hy z Hz). specialize (Hx z Hz). unfold before in *.
        destruct (decide (WorkflowTask.priority x.2 = WorkflowTask.priority z.2));
          [by right|left; lia].
Qed.

Lemma sort_by_priority_reverse_sorted l :
  StronglySorted (λ x y, (x.1 < y.1)%nat) l →
  StronglySorted before (sort_by_priority_reverse l).
Proof.
  induction 1 as [|x l Hl IH Hx]; simpl; [constructor|].
  apply insert_by_priority_sorted; [done|].
  by rewrite sort_by_priority_reverse_perm.
Qed.

Lemma selected_spec completed running x :
  selected completed running x = true ↔
    (WorkflowTask.task_id x.2 ∉ completed)
    ∧ running !! WorkflowTask.task_id x.2 = None
    ∧ WorkflowTask.status x.2 ≠ "completed"
    ∧ WorkflowTask.status x.2 ≠ "running"
    ∧ (∀ dep, dep ∈ WorkflowTask.dependencies x.2 → dep ∈ completed).
Proof.
  unfold selected, skipped, dependencies_met.
  rewrite andb_true_iff, negb_true_iff, !orb_false_iff.
  rewrite !bool_decide_eq_false, forallb_forall.
  rewrite <-eq_None_not_Some.
  split.
  - intros [[[H1 H2] H3] H4]. repeat split; try done.
    + intros Heq. apply H3. rewrite Heq. set_solver.
    + intros Heq. apply H3. rewrite Heq. set_solver.
    + intros dep Hdep. apply list_elem_of_In, H4 in Hdep.
      by apply bool_decide_eq_true in Hdep.
  - intros (H1 & H2 & H3 & H4 & H5). repeat split; try done.
    + rewrite !elem_of_cons, elem_of_nil. tauto.
    + intros dep Hdep. apply bool_decide_eq_true, H5. by apply list_elem_of_In.
Qed.

Lemma elem_of_get_ready_tasks (workflow : Workflow.t) completed running i task :
  (i, task) ∈ _get_ready_tasks workflow completed running ↔
    Workflow.tasks workflow !! i = Some task
    ∧ selected completed running (i, task) = true.
Proof.
  unfold _get_ready_tasks. rewrite sort_by_priority_reverse_perm.
  rewrite list_elem_of_filter, elem_of_enumerate. tauto.
Qed.

End ready.

(** C3 (as amended): the ready list holds exactly the tasks of the workflow
    whose id is neither in the completed set nor dispatched, whose status is
    neither "completed" nor "running", and whose dependencies are all in
    the completed set; each such task occurs once; the list is ordered by
    descending priority, equal priorities in the order of
    [workflow.tasks]. *)
Theorem get_ready_tasks_spec (workflow : Workflow.t) (completed : gset string)
    (running : gmap string async_task) :
  (∀ i task,
     (i, task) ∈ _get_ready_tasks workflow completed running ↔
       Workflow.tasks workflow !! i = Some task
       ∧ (WorkflowTask.task_id task ∉ completed)
       ∧ running !! WorkflowTask.task_id task = None
       ∧ WorkflowTask.status task ≠ "completed"
       ∧ WorkflowTask.status task ≠ "running"
       ∧ (∀ dep, dep ∈ WorkflowTask.dependencies task → dep ∈ completed))
  ∧ NoDup (_get_ready_tasks workflow completed running)
  ∧ StronglySorted before (_get_ready_tasks workflow completed running).
Proof.
  pose proof (enumerate_ascending_from (Workflow.tasks workflow) 0) as Hasc.
  fold (enumerate (Workflow.tasks workflow)) in Hasc.
  split; [|split]; [|unfold _get_ready_tasks..].
  - intros i task. rewrite elem_of_get_ready_tasks, selected_spec. simpl. tauto.
  - rewrite sort_by_priority_reverse_perm. apply NoDup_filter.
    clear -Hasc. induction Hasc as [|x l Hl IH Hx]; constructor; [|done].
    intros Hin. rewrite Forall_forall in Hx. specialize (Hx x Hin). lia.
  - apply sort_by_priority_reverse_sorted, filter_ascending, Hasc.
Qed.

(** C3 as stated fails: a task whose status is "failed" (left so by an
    earlier run, or built that way) and that is in neither set is ready,
    although its status is not "pending". *)
Lemma get_ready_tasks_not_only_pending :
  ¬ (∀ (workflow : Workflow.t) (completed : gset string)
       (running : gmap string async_task) i task,
       (i, task) ∈ _get_ready_tasks workflow completed running ↔
         Workflow.tasks workflow !! i = Some task
         ∧ WorkflowTask.status task = "pending"
         ∧ running !! WorkflowTask.task_id task = None
         ∧ (∀ dep, dep ∈ WorkflowTask.dependencies task → dep ∈ completed)).
Proof.
  intros H.
  pose (task := WorkflowTask.mk "t1" "research_topic" "researcher_001" ""
                  [] 1 300 3 3 "failed" None).
  pose (workflow := Workflow.mk "w" "demo" "" [task] IDLE 0%Q None).
  destruct (H workflow ∅ ∅ 0%nat task) as [H1 _].
  assert ((0%nat, task) ∈ _get_ready_tasks workflow ∅ ∅) as Hin
    by (vm_compute; apply list_elem_of_here).
  apply H1 in Hin as (_ & Hst & _). discriminate Hst.
Qed.

(** ** Definition errors *)

(** C9: [create_task] with an agent id that is not registered, and
    [add_task_to_workflow] and [execute_workflow] with a workflow id that
    is absent, raise [ValueError] and leave the coordinator as it was;
    [execute_workflow] does so whatever the workers and the event loop
    would do, without running or retrying anything. *)
Theorem definition_errors_raised_before_mutation (self : TaskCoordinator.t)
    (agent_id workflow_id : string)
    (Hagent : TaskCoordinator.agents self !! agent_id = None)
    (Hworkflow : TaskCoordinator.workflows self !! workflow_id = None) :
  (∀ task_id task_type data dependencies priority timeout,
     create_task self task_id task_type agent_id data dependencies priority timeout
     = (inl (ValueError ("Agent不存在: " +:+ agent_id)), self))
  ∧ (∀ task,
       add_task_to_workflow self workflow_id task
       = (inl (ValueError ("工作流不存在: " +:+ workflow_id)), self))
  ∧ (∀ fuel workers hints,
       execute_workflow fuel workers hints self workflow_id
       = mk_execution (Some (inl (ValueError ("工作流不存在: " +:+ workflow_id))))
           self []).
Proof.
  split; [|split]; intros.
  - unfold create_task. by rewrite Hagent.
  - unfold add_task_to_workflow. by rewrite Hworkflow.
  - unfold execute_workflow. by rewrite Hworkflow.
Qed.

Lemma definition_errors_witness :
  (∀ task_id task_type data dependencies priority timeout,
     create_task TaskCoordinator.init task_id task_type "researcher_001" data
       dependencies priority timeout
     = (inl (ValueError ("Agent不存在: " +:+ "researcher_001")),
        TaskCoordinator.init))
  ∧ (∀ task,
       add_task_to_workflow TaskCoordinator.init "wf_1" task
       = (inl (ValueError ("工作流不存在: " +:+ "wf_1")), TaskCoordinator.init))
  ∧ (∀ fuel workers hints,
       execute_workflow fuel workers hints TaskCoordinator.init "wf_1"
       = mk_execution (Some (inl (ValueError ("工作流不存在: " +:+ "wf_1"))))
           TaskCoordinator.init []).
Proof.
  apply (definition_errors_raised_before_mutation TaskCoordinator.init
           "researcher_001" "wf_1"); reflexivity.
Defined.

(** ** Messaging *)

(** C10: [send_message] to a receiver that is not registered raises
    [ValueError] and leaves the coordinator as it was (nothing is appended
    to the message queue or to any inbox); to a registered receiver it
    returns, appends the message to the message queue and to the inbox of
    that receiver, and leaves every other agent and the rest of the
    coordinator as they were. *)
Theorem send_message_spec (self : TaskCoordinator.t)
    (sender_id receiver_id content message_type : string)
    (metadata : option (list (string * string))) :
  (TaskCoordinator.agents self !! receiver_id = None →
     send_message self sender_id receiver_id content message_type metadata
     = (inl (ValueError ("接收者Agent不存在: " +:+ receiver_id)), self))
  ∧ (∀ receiver_agent,
       TaskCoordinator.agents self !! receiver_id = Some receiver_agent →
       let message :=
         Message.mk sender_id receiver_id content message_type (default [] metadata) in
       ∃ self',
         send_message self sender_id receiver_id content message_type metadata
         = (inr tt, self')
         ∧ TaskCoordinator.message_queue self'
           = (TaskCoordinator.message_queue self ++ [message])%list
         ∧ (∃ receiver_agent',
              TaskCoordinator.agents self' !! receiver_id = Some receiver_agent'
              ∧ BaseAgent.message_history receiver_agent'
                = (BaseAgent.message_history receiver_agent ++ [message])%list)
         ∧ (∀ other, other ≠ receiver_id →
              TaskCoordinator.agents self' !! other
              = TaskCoordinator.agents self !! other)
         ∧ TaskCoordinator.workflows self' = TaskCoordinator.workflows self
         ∧ TaskCoordinator.task_history self' = TaskCoordinator.task_history self).
Proof.
  split.
  - intros Hnone. unfold send_message. by rewrite Hnone.
  - intros receiver_agent Hsome message. unfold send_message. rewrite Hsome.
    eexists. split; [reflexivity|]. simpl.
    split; [done|]. split.
    + eexists. split; [apply lookup_insert_eq|done].
    + split; [|done]. intros other Hne. by apply lookup_insert_ne.
Qed.

Lemma send_message_witness :
  send_message (coordinator_with []) "planner_001" "nobody" "hello" "text" None
  = (inl (ValueError ("接收者Agent不存在: " +:+ "nobody")), coordinator_with []).
Proof.
  apply (send_message_spec (coordinator_with []) "planner_001" "nobody" "hello"
           "text" None).
  reflexivity.
Defined.


(** ** Task execution, timeout and retry *)

(** One unfolding of [_execute_single_task], in the shape of the source. *)
Lemma execute_single_task_unfold self worker n task :
  _execute_single_task self worker n task =
  match TaskCoordinator.agents self !! WorkflowTask.agent_id task with
  | None => mk_single_run self task (inl (KeyError (WorkflowTask.agent_id task))) n
  | Some _ =>
      match worker n with
      | Returns result =>
          mk_single_run
            (TaskCoordinator.set_task_history
               (TaskCoordinator.task_history self ++ [result]) self)
            (WorkflowTask.set_status "completed"
               (WorkflowTask.set_result (Some result) task))
            (inr result) (S n)
      | TimesOut =>
          if bool_decide (WorkflowTask.retry_count task < WorkflowTask.max_retries task)
          then _execute_single_task self worker (S n)
                 (schedule_retry (record_failure task (timeout_error_msg task)))
          else mk_single_run self (record_failure task (timeout_error_msg task))
                 (inl (PyException (Lit (timeout_error_msg task)))) (S n)
      | Raises e =>
          if bool_decide (WorkflowTask.retry_count task < WorkflowTask.max_retries task)
          then _execute_single_task self worker (S n)
                 (schedule_retry (record_failure task (failure_error_msg task e)))
          else mk_single_run self (record_failure task (failure_error_msg task e))
                 (inl (WorkerException e)) (S n)
      end
  end.
Proof.
  remember (_execute_single_task self worker (S n)) as next eqn:Hnext.
  simp _execute_single_task.
  destruct (TaskCoordinator.agents self !! WorkflowTask.agent_id task); simpl; [|done].
  destruct (worker n); simpl; [done| |].
  - destruct (Z_lt_dec _ _); simpl.
    + by rewrite bool_decide_eq_true_2, Hnext.
    + by rewrite bool_decide_eq_false_2.
  - destruct (Z_lt_dec _ _); simpl.
    + by rewrite bool_decide_eq_true_2, Hnext.
    + by rewrite bool_decide_eq_false_2.
Qed.

(** No call or recursive call changes the id of the task. *)
Lemma execute_single_task_task_id self worker n task :
  WorkflowTask.task_id (run_task (_execute_single_task self worker n task))
  = WorkflowTask.task_id task.
Proof.
  remember (Z.to_nat (WorkflowTask.max_retries task - WorkflowTask.retry_count task))
    as k eqn:Hk.
  revert n task Hk. induction k as [k IH] using lt_wf_ind. intros n task Hk.
  rewrite execute_single_task_unfold.
  destruct (TaskCoordinator.agents self !! WorkflowTask.agent_id task); [|done].
  destruct (worker n); [done| |]; case_bool_decide; try done.
  - erewrite IH; [done| |done]. simpl. lia.
  - erewrite IH; [done| |done]. simpl. lia.
Qed.

(** The retry bound: a task whose every attempt times out or raises is
    attempted once plus once per retry left, ends "failed" with its
    budget used up, and its call raises. *)
Lemma retries_exhausted self worker n task agent :
  TaskCoordinator.agents self !! WorkflowTask.agent_id task = Some agent →
  (∀ k result, worker k ≠ Returns result) →
  WorkflowTask.retry_count task ≤ WorkflowTask.max_retries task →
  run_attempts (_execute_single_task self worker n task)
  = (n + Z.to_nat (WorkflowTask.max_retries task - WorkflowTask.retry_count task)
     + 1)%nat
  ∧ WorkflowTask.status (run_task (_execute_single_task self worker n task))
    = "failed"
  ∧ WorkflowTask.retry_count (run_task (_execute_single_task self worker n task))
    = WorkflowTask.max_retries task
  ∧ (∃ e, run_outcome (_execute_single_task self worker n task) = inl e)
  ∧ run_self (_execute_single_task self worker n task) = self.
Proof.
  remember (Z.to_nat (WorkflowTask.max_retries task - WorkflowTask.retry_count task))
    as k eqn:Hk.
  revert n task Hk. induction k as [k IH] using lt_wf_ind.
  intros n task Hk Hagent Hfails Hle.
  rewrite execute_single_task_unfold, Hagent.
  destruct (worker n) as [result| |e] eqn:Hw; [by destruct (Hfails n result)| |];
    case_bool_decide as Hlt.
  - destruct (IH (Z.to_nat (WorkflowTask.max_retries task
                            - (WorkflowTask.retry_count task + 1)))
                ltac:(lia) (S n)
                (schedule_retry (record_failure task (timeout_error_msg task))))
      as (H1 & H2 & H3 & H4 & H5); try done; [simpl; lia|].
    simpl in *. repeat split; try done. lia.
  - simpl. repeat split; try done; [lia|lia|by eexists].
  - destruct (IH (Z.to_nat (WorkflowTask.max_retries task
                            - (WorkflowTask.retry_count task + 1)))
                ltac:(lia) (S n)
                (schedule_retry (record_failure task (failure_error_msg task e))))
      as (H1 & H2 & H3 & H4 & H5); try done; [simpl; lia|].
    simpl in *. repeat split; try done. lia.
  - simpl. repeat split; try done; [lia|lia|by eexists].
Qed.






(** ** The scheduler *)

Section scheduler.

Context (workers : string → nat → attempt).

Implicit Types (s : sched) (r : task_ref).

(** *** Arithmetic of the progress value *)

Lemma progress_of_mono (c c' : gset string) (tasks : list WorkflowTask.t) :
  (size c ≤ size c')%nat → (progress_of c tasks <= progress_of c' tasks)%Q.
Proof.
  intros Hle. unfold progress_of.
  apply Qmult_le_compat_r; [|done].
  apply Qmult_le_compat_r.
  - rewrite <-Zle_Qle. lia.
  - apply Qinv_le_0_compat. rewrite <-(Zle_Qle 0). lia.
Qed.

Lemma progress_of_lt_100 (c : gset string) (tasks : list WorkflowTask.t) :
  (size c < length tasks)%nat → (progress_of c tasks < 100)%Q.
Proof.
  intros Hlt. unfold progress_of.
  destruct (length tasks) as [|m]; [lia|].
  unfold Qlt, Qdiv, Qmult, Qinv, inject_Z. simpl. lia.
Qed.

Lemma progress_of_le_100 (c : gset string) (tasks : list WorkflowTask.t) :
  (size c ≤ length tasks)%nat → (progress_of c tasks <= 100)%Q.
Proof.
  intros Hle. unfold progress_of.
  destruct (length tasks) as [|m] eqn:Hlen.
  - unfold Qle, Qdiv, Qmult, Qinv, inject_Z. simpl. lia.
  - unfold Qle, Qdiv, Qmult, Qinv, inject_Z. simpl. lia.
Qed.

(** *** Sizes of the id sets *)

Lemma size_list_to_set_le (l : list string) :
  (size (list_to_set l : gset string) ≤ length l)%nat.
Proof.
  induction l as [|x l IH].
  - by rewrite list_to_set_nil, size_empty.
  - rewrite list_to_set_cons, size_union_alt, size_singleton. simpl.
    assert (size (list_to_set l ∖ {[x]} : gset string)
            ≤ size (list_to_set l : gset string))%nat
      by (apply subseteq_size; intros y Hy;
          by apply elem_of_difference in Hy as [Hy _]).
    lia.
Qed.

Lemma size_completed_le (c : gset string) (l : list string) :
  c ⊆ list_to_set l → (size c ≤ length l)%nat.
Proof.
  intros Hsub. etrans; [by apply subseteq_size|]. apply size_list_to_set_le.
Qed.

Lemma size_completed_lt (c : gset string) (l : list string) (x : string) :
  c ⊆ list_to_set l → x ∈ l → x ∉ c → (size c < length l)%nat.
Proof.
  intros Hsub Hin Hnot.
  eapply Nat.lt_le_trans; [|apply size_list_to_set_le].
  apply subset_size. split; [done|].
  intros Hsup. apply Hnot, Hsup, elem_of_list_to_set, Hin.
Qed.

(** *** What the steps of the loop preserve *)

Lemma progress_of_length (c : gset string) (tasks tasks' : list WorkflowTask.t) :
  length tasks = length tasks' → progress_of c tasks = progress_of c tasks'.
Proof. unfold progress_of. by intros ->. Qed.

Lemma ids_length s s' :
  ids s = ids s' →
  length (Workflow.tasks (sched_workflow s))
  = length (Workflow.tasks (sched_workflow s')).
Proof.
  unfold ids. intros Heq. apply (f_equal length) in Heq.
  by rewrite !length_fmap in Heq.
Qed.

(** The coroutine leaves the configuration of the coordinator alone. *)
Lemma execute_single_task_max self worker n task :
  TaskCoordinator.max_concurrent_tasks
    (run_self (_execute_single_task self worker n task))
  = TaskCoordinator.max_concurrent_tasks self.
Proof.
  remember (Z.to_nat (WorkflowTask.max_retries task - WorkflowTask.retry_count task))
    as k eqn:Hk.
  revert n task Hk. induction k as [k IH] using lt_wf_ind. intros n task Hk.
  rewrite execute_single_task_unfold.
  destruct (TaskCoordinator.agents self !! WorkflowTask.agent_id task); [|done].
  destruct (worker n); [done| |]; case_bool_decide; try done.
  - eapply IH; [|done]. simpl. lia.
  - eapply IH; [|done]. simpl. lia.
Qed.

Lemma start_task_ids s r : ids (start_task s r) = ids s.
Proof.
  unfold ids, start_task. simpl.
  rewrite (list_fmap_alter _ _ id); [|by apply Forall_forall].
  by apply list_alter_id.
Qed.

Lemma start_task_invariant s0 s r :
  invariant s0 s → WorkflowTask.task_id r.2 ∈ ids s → invariant s0 (start_task s r).
Proof.
  intros [] Hin.
  pose proof (start_task_ids s r) as Hids.
  constructor; rewrite ?Hids; try done.
  - simpl. rewrite dom_insert_L. apply union_subseteq. split; [|done].
    apply singleton_subseteq_l, elem_of_list_to_set, Hin.
  - simpl. erewrite progress_of_length; [done|]. apply length_alter.
Qed.

Lemma start_tasks_invariant s0 s l :
  invariant s0 s →
  (∀ r, r ∈ l → WorkflowTask.task_id r.2 ∈ ids s) →
  invariant s0 (start_tasks s l).
Proof.
  revert s. induction l as [|r l IH]; intros s Hinv Hin; [done|].
  simpl. apply IH.
  - apply start_task_invariant; [done|]. apply Hin. by left.
  - intros r' Hr'. rewrite start_task_ids. apply Hin. by right.
Qed.

Lemma elem_of_slice_to {A} (l : list A) (k : Z) (x : A) :
  x ∈ slice_to l k → x ∈ l.
Proof.
  unfold slice_to. destruct (0 <=? k); intros Hin;
    by eapply subseteq_take.
Qed.

Lemma tasks_to_start_ids s r :
  r ∈ tasks_to_start s → WorkflowTask.task_id r.2 ∈ ids s.
Proof.
  intros Hin. apply elem_of_slice_to in Hin. destruct r as [i task].
  apply elem_of_get_ready_tasks in Hin as [Hi _].
  unfold ids. simpl. apply list_elem_of_fmap. exists task.
  split; [done|]. by eapply list_elem_of_lookup_2.
Qed.

Lemma run_coroutine_ids s i : ids (run_coroutine workers s i) = ids s.
Proof.
  unfold ids, run_coroutine.
  destruct (Workflow.tasks (sched_workflow s) !! i) as [task|] eqn:Hi; [|done].
  simpl. rewrite list_fmap_insert, execute_single_task_task_id.
  apply list_insert_id. by rewrite list_lookup_fmap, Hi.
Qed.

Lemma run_coroutine_invariant s0 s i :
  invariant s0 s → invariant s0 (run_coroutine workers s i).
Proof.
  intros [].
  pose proof (run_coroutine_ids s i) as Hids.
  constructor; rewrite ?Hids; try done;
    unfold run_coroutine in *;
    destruct (Workflow.tasks (sched_workflow s) !! i) as [task|] eqn:Hi;
    try done; simpl.
  - by rewrite execute_single_task_max.
  - erewrite progress_of_length; [done|]. apply length_insert.
Qed.

Lemma run_coroutine_frame s i :
  completed_tasks (run_coroutine workers s i) = completed_tasks s
  ∧ running_tasks (run_coroutine workers s i) = running_tasks s
  ∧ progress_log (run_coroutine workers s i) = progress_log s.
Proof.
  unfold run_coroutine.
  by destruct (Workflow.tasks (sched_workflow s) !! i).
Qed.

Lemma handle_done_invariant s0 s task_id :
  invariant s0 s → invariant s0 (handle_done workers s task_id).
Proof.
  intros Hinv. unfold handle_done.
  destruct (running_tasks s !! task_id) as [h|] eqn:Hh; [|done].
  set (s1 := match h with
             | InFlight i => run_coroutine workers s i
             | Finished _ => s
             end).
  assert (invariant s0 s1) as Hinv1.
  { subst s1. destruct h; [by apply run_coroutine_invariant|done]. }
  assert (completed_tasks s1 = completed_tasks s
          ∧ running_tasks s1 = running_tasks s
          ∧ progress_log s1 = progress_log s) as (Hc & Hr & Hl).
  { subst s1. destruct h; [apply run_coroutine_frame|done]. }
  assert (task_id ∈ dom (running_tasks s1)) as Hdom.
  { rewrite Hr. apply elem_of_dom. by eexists. }
  clearbody s1. destruct Hinv1.
  case_bool_decide; constructor; simpl; try done.
  - apply union_subseteq. split; [done|].
    apply singleton_subseteq_l. by apply inv_running0.
  - rewrite dom_delete_L. etrans; [|done].
    intros y Hy. by apply elem_of_difference in Hy as [Hy _].
  - apply StronglySorted_app_2; [|done|repeat constructor].
    intros q p Hq Hp. apply list_elem_of_singleton in Hp as ->.
    rewrite Forall_forall in inv_bound0.
    eapply Qle_trans; [by apply inv_bound0|].
    apply progress_of_mono, subseteq_size, union_subseteq_l.
  - apply Forall_app. split; [|repeat constructor; apply Qle_refl].
    eapply Forall_impl; [done|]. intros q Hq. simpl in Hq.
    eapply Qle_trans; [done|].
    apply progress_of_mono, subseteq_size, union_subseteq_l.
  - by rewrite last_last.
  - rewrite dom_insert_L. apply union_subseteq. split; [|done].
    apply singleton_subseteq_l. by apply inv_running0.
Qed.

Lemma await_and_collect_invariant s0 s hint :
  invariant s0 s → invariant s0 (await_and_collect workers hint s).
Proof.
  intros Hinv. unfold await_and_collect.
  destruct (decide (running_tasks s = ∅)) as [|_]; [done|].
  generalize (elements (wait_first_completed (running_tasks s) hint)).
  intros l. revert s Hinv. induction l as [|x l IH]; intros s Hinv; [done|].
  simpl. by apply IH, handle_done_invariant.
Qed.

(** Whatever way a turn of the loop ends, the invariant holds of the state
    it leaves; a turn that raises leaves some task uncompleted. *)
Lemma loop_body_invariant s0 s hint :
  invariant s0 s →
  match loop_body workers hint s with
  | Continue s' | Break s' => invariant s0 s'
  | Raise e s' =>
      invariant s0 s'
      ∧ loop_condition s'
      ∧ e = PyException
              (UnresolvedDepsMsg
                 (unresolved_deps (sched_workflow s') (completed_tasks s')))
  end.
Proof.
  intros Hinv. unfold loop_body.
  set (s2 := await_and_collect workers hint (start_tasks s (tasks_to_start s))).
  assert (invariant s0 s2) as Hinv2.
  { apply await_and_collect_invariant, start_tasks_invariant; [done|].
    apply tasks_to_start_ids. }
  clearbody s2.
  destruct (bool_decide (ready_of s = []) && bool_decide (running_tasks s2 = ∅));
    [|done].
  destruct (remaining_tasks (sched_workflow s2) (completed_tasks s2))
    as [|task rest] eqn:Hrem; [done|].
  split; [done|]. split; [|done].
  assert (task ∈ remaining_tasks (sched_workflow s2) (completed_tasks s2)) as Hin
    by (rewrite Hrem; left).
  apply list_elem_of_filter in Hin as [Hnot Hin].
  unfold loop_condition. rewrite <-(length_fmap WorkflowTask.task_id).
  eapply size_completed_lt; [apply Hinv2| |done].
  by apply list_elem_of_fmap_2.
Qed.

Lemma while_loop_invariant s0 fuel hints s :
  invariant s0 s →
  match while_loop fuel workers hints s with
  | Returned s' => invariant s0 s'
  | Raised e s' =>
      invariant s0 s'
      ∧ loop_condition s'
      ∧ e = PyException
              (UnresolvedDepsMsg
                 (unresolved_deps (sched_workflow s') (completed_tasks s')))
  | Unfinished s' => invariant s0 s' ∧ loop_condition s'
  end.
Proof.
  revert hints s. induction fuel as [|fuel IH]; intros hints s Hinv; simpl.
  - destruct (Nat.ltb_spec (size (completed_tasks s))
                (length (Workflow.tasks (sched_workflow s)))); done.
  - destruct (Nat.ltb_spec (size (completed_tasks s))
                (length (Workflow.tasks (sched_workflow s)))); [|done].
    pose proof (loop_body_invariant s0 s (hd [] hints) Hinv) as Hbody.
    destruct (loop_body workers (hd [] hints) s); [by apply IH|done..].
Qed.

Lemma turns_invariant s0 hints s k s' :
  turns workers hints s k s' → invariant s0 s → invariant s0 s'.
Proof.
  induction 1 as [|hints s s1 k s2 Hcond Hbody _ IH]; intros Hinv; [done|].
  apply IH. pose proof (loop_body_invariant s0 s (hd [] hints) Hinv) as H.
  by rewrite Hbody in H.
Qed.

Lemma initial_invariant self workflow :
  invariant (initial self workflow) (initial self workflow).
Proof.
  constructor; simpl; try done. constructor.
Qed.

(** [k] full turns followed by a run of the loop are a run of the loop. *)
Lemma while_loop_turns hints s k s' fuel :
  turns workers hints s k s' →
  while_loop (k + fuel) workers hints s = while_loop fuel workers (drop k hints) s'.
Proof.
  induction 1 as [|hints s s1 k s2 Hcond Hbody _ IH]; [by rewrite drop_0|].
  simpl. unfold loop_condition in Hcond.
  apply Nat.ltb_lt in Hcond. rewrite Hcond, Hbody, IH.
  destruct hints; [simpl; by rewrite drop_nil|done].
Qed.

End scheduler.

(** *** Dead ends *)

Lemma slice_to_nil {A} (k : Z) : slice_to (@nil A) k = [].
Proof. unfold slice_to. destruct (0 <=? k); apply take_nil. Qed.

Lemma elem_of_unresolved_pairs (workflow : Workflow.t) (completed : gset string)
    (t d : string) :
  (t, d) ∈ unresolved_pairs workflow completed ↔
    ∃ task, task ∈ Workflow.tasks workflow
            ∧ WorkflowTask.task_id task = t ∧ (t ∉ completed)
            ∧ d ∈ WorkflowTask.dependencies task ∧ (d ∉ completed).
Proof.
  unfold unresolved_pairs, remaining_tasks.
  rewrite list_elem_of_In, in_flat_map. split.
  - intros (task & Htask & Hin).
    apply list_elem_of_In, list_elem_of_filter in Htask as [Hnot Htask].
    apply list_elem_of_In, list_elem_of_fmap in Hin as (dep & Heq & Hdep).
    apply list_elem_of_filter in Hdep as [Hdnot Hdep].
    injection Heq as -> ->. by exists task.
  - intros (task & Htask & Heq & Hnot & Hdep & Hdnot). subst t.
    exists task. split.
    + by apply list_elem_of_In, list_elem_of_filter.
    + apply list_elem_of_In, list_elem_of_fmap. exists d. split; [done|].
      by apply list_elem_of_filter.
Qed.

(** A turn that starts with nothing ready and nothing in flight while a
    task is uncompleted raises, and changes nothing. *)
Lemma loop_body_dead_end workers hint s task :
  ready_of s = [] →
  running_tasks s = ∅ →
  task ∈ Workflow.tasks (sched_workflow s) →
  WorkflowTask.task_id task ∉ completed_tasks s →
  loop_body workers hint s
  = Raise (PyException
             (UnresolvedDepsMsg (unresolved_deps (sched_workflow s) (completed_tasks s))))
          s.
Proof.
  intros Hready Hrunning Hin Hnot. unfold loop_body, tasks_to_start.
  rewrite Hready, slice_to_nil. simpl.
  unfold await_and_collect. rewrite decide_True by done.
  rewrite !bool_decide_eq_true_2 by done. simpl.
  destruct (remaining_tasks (sched_workflow s) (completed_tasks s)) eqn:Hrem; [|done].
  exfalso. eapply (filter_nil_not_elem_of _ _ task); [apply Hrem|done|done].
Qed.

(** C4: when a run of [execute_workflow] is at the top of the loop with no
    task ready, no task in flight and some task uncompleted, the call ends:
    it raises the dead-end exception, whose list holds one entry
    "task -> dependency" for each uncompleted task and each of its
    dependencies that is not completed, and the workflow is left FAILED
    with that message.  The outcome is the same for every amount of fuel
    that lets the run get that far. *)
Theorem dead_end_fails_workflow (workers : string → nat → attempt)
    (hints : list (list string)) (self : TaskCoordinator.t)
    (workflow_id : string) (workflow : Workflow.t) (k : nat) (s : sched)
    (fuel : nat)
    (Hworkflow : TaskCoordinator.workflows self !! workflow_id = Some workflow)
    (Hturns : turns workers hints
                (initial self (Workflow.set_status RUNNING workflow)) k s)
    (Hready : ready_of s = [])
    (Hrunning : running_tasks s = ∅)
    (Hremaining : ∃ task, task ∈ Workflow.tasks (sched_workflow s)
                          ∧ WorkflowTask.task_id task ∉ completed_tasks s)
    (Hfuel : (k < fuel)%nat) :
  let e := execute_workflow fuel workers hints self workflow_id in
  let pairs := unresolved_pairs (sched_workflow s) (completed_tasks s) in
  exec_outcome e
  = Some (inl (PyException (UnresolvedDepsMsg (map render_pair pairs))))
  ∧ (∃ workflow',
       TaskCoordinator.workflows (exec_self e) !! workflow_id = Some workflow'
       ∧ Workflow.status workflow' = FAILED
       ∧ Workflow.error_message workflow'
         = Some (UnresolvedDepsMsg (map render_pair pairs)))
  ∧ (∀ t d, (t, d) ∈ pairs ↔
       ∃ task, task ∈ Workflow.tasks (sched_workflow s)
               ∧ WorkflowTask.task_id task = t ∧ (t ∉ completed_tasks s)
               ∧ d ∈ WorkflowTask.dependencies task ∧ (d ∉ completed_tasks s)).
Proof.
  intros e pairs. destruct Hremaining as (task & Hin & Hnot).
  set (s0 := initial self (Workflow.set_status RUNNING workflow)) in *.
  assert (invariant s0 s) as Hinv
    by (eapply turns_invariant; [done|apply initial_invariant]).
  assert (loop_condition s) as Hcond.
  { unfold loop_condition. rewrite <-(length_fmap WorkflowTask.task_id).
    eapply size_completed_lt; [apply Hinv| |done]. by apply list_elem_of_fmap_2. }
  assert (execute_workflow fuel workers hints self workflow_id
          = mk_execution
              (Some (inl (PyException (UnresolvedDepsMsg (map render_pair pairs)))))
              (store_workflow workflow_id
                 (Workflow.set_error_message
                    (Some (UnresolvedDepsMsg (map render_pair pairs)))
                    (Workflow.set_status FAILED (sched_workflow s)))
                 (sched_self s))
              (progress_log s)) as Hexec.
  { unfold execute_workflow, _execute_workflow_tasks. rewrite Hworkflow.
    fold s0. replace fuel with (k + S (fuel - k - 1))%nat by lia.
    rewrite (while_loop_turns workers hints s0 k s) by done. simpl.
    apply Nat.ltb_lt in Hcond. rewrite Hcond.
    by rewrite (loop_body_dead_end _ _ _ task). }
  subst e. rewrite Hexec. simpl. repeat split; try done.
  - eexists. split; [apply lookup_insert_eq|done].
  - by apply elem_of_unresolved_pairs.
  - by apply elem_of_unresolved_pairs.
Qed.

(** A task that depends on itself. *)
Lemma dead_end_self_dependency :
  exec_outcome
    (execute_workflow 1 succeeds_always [] (coordinator_with self_dependent) "wf")
  = Some (inl (PyException (UnresolvedDepsMsg ["X -> X"])))
  ∧ ∃ workflow',
      TaskCoordinator.workflows
        (exec_self
           (execute_workflow 1 succeeds_always [] (coordinator_with self_dependent) "wf"))
        !! "wf" = Some workflow'
      ∧ Workflow.status workflow' = FAILED
      ∧ Workflow.error_message workflow' = Some (UnresolvedDepsMsg ["X -> X"]).
Proof.
  destruct (dead_end_fails_workflow succeeds_always []
              (coordinator_with self_dependent) "wf"
              (Workflow.mk "wf" "demo" "" self_dependent IDLE 0%Q None) 0%nat
              (initial (coordinator_with self_dependent)
                 (Workflow.set_status RUNNING
                    (Workflow.mk "wf" "demo" "" self_dependent IDLE 0%Q None)))
              1%nat)
    as (H1 & H2 & _).
  - reflexivity.
  - constructor.
  - reflexivity.
  - reflexivity.
  - exists (task_for "X" ["X"] 3). split; [left|apply not_elem_of_empty].
  - lia.
  - split; [exact H1|exact H2].
Defined.

(** Two tasks that depend on each other. *)
Example dead_end_mutual_dependency :
  exec_outcome
    (execute_workflow 1 succeeds_always [] (coordinator_with mutually_dependent) "wf")
  = Some (inl (PyException (UnresolvedDepsMsg ["A -> B"; "B -> A"]))).
Proof. vm_compute. reflexivity. Qed.

(** The check reads the ready list computed before the wait: when the last
    task in flight finishes in a turn that started with nothing ready, the
    error is raised although a task has just become ready ("C" below, once
    "A" is done), and its list of unresolved edges is empty. *)
Example dead_end_check_reads_stale_ready_list :
  exec_outcome
    (execute_workflow 3 succeeds_always [["B"]; ["A"]]
       (coordinator_with [task_for "A" [] 3; task_for "B" [] 3; task_for "C" ["A"] 3])
       "wf")
  = Some (inl (PyException (UnresolvedDepsMsg []))).
Proof. vm_compute. reflexivity. Qed.

(** *** The concurrency bound *)

Lemma length_slice_to_le {A} (l : list A) (k : Z) :
  0 ≤ k → Z.of_nat (length (slice_to l k)) ≤ k.
Proof.
  intros Hk. unfold slice_to. rewrite (proj2 (Z.leb_le 0 k) Hk).
  rewrite length_take. lia.
Qed.

Lemma start_tasks_running_size s l :
  (size (running_tasks (start_tasks s l)) ≤ size (running_tasks s) + length l)%nat.
Proof.
  revert s. induction l as [|r l IH]; intros s; simpl; [lia|].
  etrans; [apply IH|]. simpl.
  pose proof (map_size_insert (WorkflowTask.task_id r.2) (InFlight r.1)
                (running_tasks s)) as Hsize.
  destruct (running_tasks s !! WorkflowTask.task_id r.2); simpl in Hsize; lia.
Qed.

Lemma start_tasks_self s l : sched_self (start_tasks s l) = sched_self s.
Proof. revert s. induction l as [|r l IH]; intros s; simpl; [done|]. by rewrite IH. Qed.

Lemma handle_done_running_size workers s task_id :
  (size (running_tasks (handle_done workers s task_id)) ≤ size (running_tasks s))%nat.
Proof.
  unfold handle_done.
  destruct (running_tasks s !! task_id) as [h|] eqn:Hh; [|done].
  set (s1 := match h with
             | InFlight i => run_coroutine workers s i
             | Finished _ => s
             end).
  assert (running_tasks s1 = running_tasks s) as Hr.
  { subst s1. destruct h; [apply run_coroutine_frame|done]. }
  clearbody s1. case_bool_decide; simpl; rewrite Hr.
  - rewrite map_size_delete, Hh. simpl. lia.
  - rewrite map_size_insert, Hh. simpl. lia.
Qed.

Lemma foldl_handle_done_running_size workers s l :
  (size (running_tasks (foldl (handle_done workers) s l)) ≤ size (running_tasks s))%nat.
Proof.
  revert s. induction l as [|x l IH]; intros s; simpl; [done|].
  etrans; [apply IH|]. apply handle_done_running_size.
Qed.

Lemma foldl_handle_done_invariant workers s0 s l :
  invariant s0 s → invariant s0 (foldl (handle_done workers) s l).
Proof.
  revert s. induction l as [|x l IH]; intros s Hinv; [done|].
  simpl. by apply IH, handle_done_invariant.
Qed.

(** The dispatch of a turn fills at most the free slots. *)
Lemma dispatch_within_bound s0 s j :
  0 ≤ TaskCoordinator.max_concurrent_tasks (sched_self s0) →
  invariant s0 s →
  Z.of_nat (size (running_tasks s))
    ≤ TaskCoordinator.max_concurrent_tasks (sched_self s0) →
  Z.of_nat (length (tasks_to_start s)) ≤ available_slots s
  ∧ Z.of_nat (size (running_tasks (start_tasks s (take j (tasks_to_start s)))))
    ≤ TaskCoordinator.max_concurrent_tasks (sched_self s0).
Proof.
  intros Hmax Hinv Hsize.
  assert (Z.of_nat (length (tasks_to_start s)) ≤ available_slots s) as Hlen.
  { apply length_slice_to_le. unfold available_slots. rewrite (inv_max _ _ Hinv). lia. }
  split; [done|].
  pose proof (start_tasks_running_size s (take j (tasks_to_start s))) as Hgrow.
  rewrite length_take in Hgrow.
  unfold available_slots in Hlen. rewrite (inv_max _ _ Hinv) in Hlen. lia.
Qed.

Lemma turns_within_bound workers s0 hints s k s' :
  0 ≤ TaskCoordinator.max_concurrent_tasks (sched_self s0) →
  turns workers hints s k s' →
  invariant s0 s →
  Z.of_nat (size (running_tasks s))
    ≤ TaskCoordinator.max_concurrent_tasks (sched_self s0) →
  Z.of_nat (size (running_tasks s'))
    ≤ TaskCoordinator.max_concurrent_tasks (sched_self s0).
Proof.
  intros Hmax. induction 1 as [|hints s s1 k s2 Hcond Hbody _ IH];
    intros Hinv Hsize; [done|].
  pose proof (loop_body_invariant workers s0 s (hd [] hints) Hinv) as Hinv1.
  rewrite Hbody in Hinv1. apply IH; [done|].
  unfold loop_body in Hbody.
  destruct (bool_decide (ready_of s = []) && _) in Hbody;
    [by destruct (remaining_tasks _ _)|].
  injection Hbody as <-.
  pose proof (dispatch_within_bound s0 s (length (tasks_to_start s)) Hmax Hinv Hsize)
    as [_ Hstart].
  rewrite firstn_all in Hstart.
  unfold await_and_collect. case_decide; [done|].
  etrans; [|exact Hstart]. apply inj_le, foldl_handle_done_running_size.
Qed.

(** C5: with a maximum concurrency that is not negative, at every point of
    a run at which the scheduler holds control (the top of a turn, after
    each task it starts, after each finished handle it processes) the
    number of entries of [running_tasks] is at most
    [max_concurrent_tasks]; and every turn starts at most
    [max_concurrent_tasks - len(running_tasks)] tasks. *)
Theorem concurrency_bound (workers : string → nat → attempt)
    (self : TaskCoordinator.t) (workflow : Workflow.t)
    (Hmax : 0 ≤ TaskCoordinator.max_concurrent_tasks self) :
  (∀ s, visits workers self workflow s →
        Z.of_nat (size (running_tasks s)) ≤ TaskCoordinator.max_concurrent_tasks self)
  ∧ (∀ hints k s,
       turns workers hints (initial self workflow) k s →
       Z.of_nat (length (tasks_to_start s))
       ≤ TaskCoordinator.max_concurrent_tasks self
         - Z.of_nat (size (running_tasks s))).
Proof.
  set (s0 := initial self workflow).
  assert (∀ hints k s, turns workers hints s0 k s →
            invariant s0 s
            ∧ Z.of_nat (size (running_tasks s))
              ≤ TaskCoordinator.max_concurrent_tasks self) as Htop.
  { intros hints k s Hturns. split.
    - eapply turns_invariant; [done|apply initial_invariant].
    - eapply (turns_within_bound workers s0); [done|done|apply initial_invariant|].
      simpl. by rewrite map_size_empty. }
  split.
  - intros s Hvisit. destruct Hvisit as [hints k s Hturns|hints k s j Hturns Hcond
                                        |hints k s hint j Hturns Hcond Hne].
    + by apply (Htop hints k).
    + destruct (Htop hints k s Hturns) as [Hinv Hsize].
      by apply (dispatch_within_bound s0 s j).
    + destruct (Htop hints k s Hturns) as [Hinv Hsize].
      etrans; [apply inj_le, foldl_handle_done_running_size|].
      pose proof (dispatch_within_bound s0 s (length (tasks_to_start s))
                    Hmax Hinv Hsize) as [_ Hstart].
      by rewrite firstn_all in Hstart.
  - intros hints k s Hturns.
    destruct (Htop hints k s Hturns) as [Hinv Hsize].
    pose proof (dispatch_within_bound s0 s 0%nat Hmax Hinv Hsize) as [Hlen _].
    unfold available_slots in Hlen. by rewrite (inv_max _ _ Hinv) in Hlen.
Qed.

Lemma concurrency_bound_witness :
  (∀ s, visits succeeds_always (coordinator_with two_tasks) two_tasks_workflow s →
        Z.of_nat (size (running_tasks s)) ≤ 5)
  ∧ (∀ hints k s,
       turns succeeds_always hints
         (initial (coordinator_with two_tasks) two_tasks_workflow) k s →
       Z.of_nat (length (tasks_to_start s)) ≤ 5 - Z.of_nat (size (running_tasks s))).
Proof.
  apply (concurrency_bound succeeds_always (coordinator_with two_tasks)
           two_tasks_workflow).
  simpl. lia.
Defined.

(** ** Failure of a task and the outcome of the workflow *)

(** C1, on the code: task "t1" times out on every attempt and uses up its
    retry budget (3 retries), so its coroutine ends by raising.  The
    scheduler moves the id of the finished handle to [completed_tasks]
    without looking at what the handle holds: it goes on to start "t2",
    which depends on "t1", and [execute_workflow] returns the workflow
    COMPLETED at progress 100 with no error message, raising nothing. *)
Lemma exhausted_task_leaves_workflow_completed :
  ∃ workflow',
      exec_outcome (execute_workflow 3 t1_times_out [] (coordinator_with two_tasks) "wf")
      = Some (inr workflow')
      ∧ Workflow.status workflow' = COMPLETED
      ∧ Workflow.error_message workflow' = None
      ∧ Workflow.progress workflow' = 100%Q
      ∧ WorkflowTask.status <$> Workflow.tasks workflow' = ["failed"; "completed"]
      ∧ WorkflowTask.retry_count <$> Workflow.tasks workflow' = [3; 0]
      ∧ (λ task, TaskResult.error_message <$> WorkflowTask.result task)
          <$> Workflow.tasks workflow'
        = [Some (Some "任务超时: t1 (超时时间: 300s)"); Some None].
Proof.
  eexists. split; [vm_compute; reflexivity|].
  repeat split; reflexivity.
Qed.

(** C7, on the code: a task with [max_retries = 2] whose every attempt
    raises is attempted 3 times and ends "failed", its call raising the
    exception of the worker; run inside a workflow, the workflow is
    nevertheless left COMPLETED with no error message. *)
Lemma always_failing_task_three_attempts_workflow_completed :
  run_attempts
    (_execute_single_task (coordinator_with [task_for "t1" [] 2])
       (always_raises "t1") 0%nat (task_for "t1" [] 2))
  = 3%nat
  ∧ WorkflowTask.status
      (run_task
         (_execute_single_task (coordinator_with [task_for "t1" [] 2])
            (always_raises "t1") 0%nat (task_for "t1" [] 2)))
    = "failed"
  ∧ run_outcome
      (_execute_single_task (coordinator_with [task_for "t1" [] 2])
         (always_raises "t1") 0%nat (task_for "t1" [] 2))
    = inl (WorkerException "boom")
  ∧ ∃ workflow',
      exec_outcome
        (execute_workflow 2 always_raises [] (coordinator_with [task_for "t1" [] 2]) "wf")
      = Some (inr workflow')
      ∧ Workflow.status workflow' = COMPLETED
      ∧ Workflow.error_message workflow' = None
      ∧ WorkflowTask.status <$> Workflow.tasks workflow' = ["failed"]
      ∧ WorkflowTask.retry_count <$> Workflow.tasks workflow' = [2].
Proof.
  split; [vm_compute; reflexivity|]. split; [vm_compute; reflexivity|].
  split; [vm_compute; reflexivity|].
  eexists. split; [vm_compute; reflexivity|].
  repeat split; reflexivity.
Qed.

(** ** The loop ends *)

Section termination.

Context (workers : string → nat → attempt).

Implicit Types (s : sched).

Lemma start_task_apart s r :
  apart s → WorkflowTask.task_id r.2 ∉ completed_tasks s → apart (start_task s r).
Proof.
  unfold apart. simpl. rewrite dom_insert_L. intros Hs Hr x Hx Hc.
  apply elem_of_union in Hx as [Hx|Hx].
  - apply elem_of_singleton in Hx as ->. done.
  - by apply (Hs x).
Qed.

Lemma start_tasks_completed s l : completed_tasks (start_tasks s l) = completed_tasks s.
Proof. revert s. induction l as [|r l IH]; intros s; simpl; [done|]. by rewrite IH. Qed.

Lemma start_tasks_apart s l :
  apart s →
  (∀ r, r ∈ l → WorkflowTask.task_id r.2 ∉ completed_tasks s) →
  apart (start_tasks s l).
Proof.
  revert s. induction l as [|r l IH]; intros s Hs Hl; [done|].
  simpl. apply IH.
  - apply start_task_apart; [done|]. apply Hl. by left.
  - intros r' Hr'. simpl. apply Hl. by right.
Qed.

Lemma start_tasks_running s l x :
  x ∈ dom (running_tasks s) → x ∈ dom (running_tasks (start_tasks s l)).
Proof.
  revert s. induction l as [|r l IH]; intros s Hx; [done|].
  simpl. apply IH. simpl. rewrite dom_insert_L. apply elem_of_union. by right.
Qed.

Lemma start_tasks_running_head s r l :
  WorkflowTask.task_id r.2 ∈ dom (running_tasks (start_tasks s (r :: l))).
Proof.
  simpl. apply start_tasks_running. simpl. rewrite dom_insert_L.
  apply elem_of_union. left. by apply elem_of_singleton.
Qed.

Lemma tasks_to_start_not_completed s r :
  r ∈ tasks_to_start s → WorkflowTask.task_id r.2 ∉ completed_tasks s.
Proof.
  intros Hin. apply elem_of_slice_to in Hin. destruct r as [i task].
  apply elem_of_get_ready_tasks in Hin as [_ Hsel].
  by apply selected_spec in Hsel as (Hnot & _).
Qed.

(** What the loop over [done] does for one handle stored under a
    non-empty id. *)
Lemma handle_done_moves s x :
  x ∈ dom (running_tasks s) → x ≠ "" →
  completed_tasks (handle_done workers s x) = completed_tasks s ∪ {[x]}
  ∧ running_tasks (handle_done workers s x) = delete x (running_tasks s).
Proof.
  intros Hx Hne. apply elem_of_dom in Hx as [h Hh].
  unfold handle_done. rewrite Hh.
  rewrite bool_decide_eq_true_2 by done. simpl.
  destruct h; [|done].
  by destruct (run_coroutine_frame workers s i) as (-> & -> & _).
Qed.

Lemma foldl_handle_done_moves s l :
  (∀ x, x ∈ l → x ∈ dom (running_tasks s) ∧ x ≠ "") →
  NoDup l →
  completed_tasks (foldl (handle_done workers) s l) = completed_tasks s ∪ list_to_set l
  ∧ running_tasks (foldl (handle_done workers) s l)
    = foldl (λ m x, delete x m) (running_tasks s) l.
Proof.
  revert s. induction l as [|x l IH]; intros s Hl Hnodup.
  - split; [|done]. rewrite list_to_set_nil. simpl.
    by rewrite (right_id_L ∅ (∪)).
  - apply NoDup_cons in Hnodup as [Hx Hnodup].
    destruct (Hl x) as [Hdom Hne]; [by left|].
    destruct (handle_done_moves s x Hdom Hne) as [Hc Hr].
    simpl. destruct (IH (handle_done workers s x)) as [Hc' Hr']; [|done|].
    + intros y Hy. destruct (Hl y) as [Hy1 Hy2]; [by right|]. split; [|done].
      rewrite Hr, dom_delete_L. apply elem_of_difference. split; [done|].
      intros Heq. apply elem_of_singleton in Heq as ->. done.
    + rewrite Hc', Hr', Hc, Hr. split; [|done].
      by rewrite <-(assoc_L (∪)).
Qed.

Lemma dom_foldl_delete (m : gmap string async_task) (l : list string) :
  dom (foldl (λ m x, delete x m) m l) = dom m ∖ list_to_set l.
Proof.
  revert m. induction l as [|x l IH]; intros m; simpl.
  - by rewrite difference_empty_L.
  - rewrite IH, dom_delete_L. apply set_eq. intros y.
    rewrite !elem_of_difference, elem_of_union, elem_of_singleton. tauto.
Qed.

Lemma wait_first_completed_spec (running : gmap string async_task) hint :
  running ≠ ∅ →
  wait_first_completed running hint ≠ ∅
  ∧ wait_first_completed running hint ⊆ dom running.
Proof.
  intros Hne. unfold wait_first_completed. case_decide as Hdone.
  - split; [|done]. intros Hdom. by apply dom_empty_inv_L in Hdom.
  - split; [done|]. apply union_subseteq. split.
    + apply dom_filter_subseteq.
    + apply intersection_subseteq_r.
Qed.

(** A turn after which the loop goes on has completed at least one more
    task, and keeps in-flight and completed ids apart. *)
Lemma loop_body_progress s0 s hint s' :
  1 ≤ TaskCoordinator.max_concurrent_tasks (sched_self s0) →
  "" ∉ ids s0 →
  invariant s0 s → apart s →
  loop_body workers hint s = Continue s' →
  apart s' ∧ (size (completed_tasks s) < size (completed_tasks s'))%nat.
Proof.
  intros Hmax Hids Hinv Hapart Hbody.
  set (s1 := start_tasks s (tasks_to_start s)).
  assert (invariant s0 s1) as Hinv1
    by (apply start_tasks_invariant; [done|apply tasks_to_start_ids]).
  assert (apart s1) as Hapart1
    by (apply start_tasks_apart; [done|apply tasks_to_start_not_completed]).
  assert (completed_tasks s1 = completed_tasks s) as Hc1
    by apply start_tasks_completed.
  unfold loop_body in Hbody. fold s1 in Hbody.
  assert (running_tasks s1 ≠ ∅) as Hne.
  { intros Hempty.
    assert (await_and_collect workers hint s1 = s1) as Hsame
      by (unfold await_and_collect; by rewrite decide_True).
    rewrite Hsame, Hempty in Hbody.
    destruct (decide (ready_of s = [])) as [Hready|Hready].
    - rewrite bool_decide_eq_true_2 in Hbody by done.
      rewrite bool_decide_eq_true_2 in Hbody by done. simpl in Hbody.
      by destruct (remaining_tasks _ _).
    - assert (tasks_to_start s ≠ []) as Hstart.
      { unfold tasks_to_start, slice_to, available_slots.
        assert (running_tasks s = ∅) as Hrun.
        { apply dom_empty_inv_L, set_eq. intros x. split; [|by rewrite elem_of_empty].
          intros Hx. apply (start_tasks_running s (tasks_to_start s)) in Hx.
          fold s1 in Hx. rewrite Hempty, dom_empty_L in Hx. done. }
        rewrite Hrun, map_size_empty, (inv_max _ _ Hinv).
        rewrite (proj2 (Z.leb_le _ _)) by lia.
        destruct (ready_of s) as [|r rest]; [done|].
        destruct (Z.to_nat _) eqn:Hnat; [lia|done]. }
      assert (∃ r rest, tasks_to_start s = r :: rest) as (r & rest & Hts)
        by (destruct (tasks_to_start s); [done|eauto]).
      assert (WorkflowTask.task_id r.2 ∈ dom (running_tasks s1)) as Hin
        by (subst s1; rewrite Hts; apply start_tasks_running_head).
      rewrite Hempty, dom_empty_L in Hin. done. }
  destruct (bool_decide (ready_of s = []) && _) in Hbody;
    [by destruct (remaining_tasks _ _)|].
  injection Hbody as <-.
  unfold await_and_collect. rewrite decide_False by done.
  destruct (wait_first_completed_spec (running_tasks s1) hint Hne) as [Hdone Hsub].
  set (done := wait_first_completed (running_tasks s1) hint) in *.
  destruct (foldl_handle_done_moves s1 (elements done)) as [Hc Hr].
  { intros x Hx. apply elem_of_elements in Hx. split; [by apply Hsub|].
    intros ->. apply Hids. rewrite <-(inv_ids _ _ Hinv1).
    apply (elem_of_list_to_set (C:=gset string)).
    apply (inv_running _ _ Hinv1), Hsub, Hx. }
  { apply NoDup_elements. }
  rewrite list_to_set_elements_L in Hc.
  split.
  - unfold apart. rewrite Hc, Hr, dom_foldl_delete, list_to_set_elements_L.
    intros x Hx Hcx. apply elem_of_difference in Hx as [Hx Hnot].
    apply elem_of_union in Hcx as [Hcx|Hcx]; [|done]. by apply (Hapart1 x).
  - rewrite Hc, <-Hc1. rewrite size_union.
    + assert (size done ≠ 0)%nat; [|lia].
      intros Hzero. by apply size_empty_iff, leibniz_equiv in Hzero.
    + intros x Hcx Hx. by apply (Hapart1 x); [apply Hsub|].
Qed.

(** With at least one slot, no empty task id and more fuel than
    uncompleted tasks, the loop returns or raises. *)
Lemma while_loop_ends s0 fuel hints s :
  1 ≤ TaskCoordinator.max_concurrent_tasks (sched_self s0) →
  "" ∉ ids s0 →
  invariant s0 s → apart s →
  (length (Workflow.tasks (sched_workflow s)) - size (completed_tasks s) < fuel)%nat →
  ∀ s', while_loop fuel workers hints s ≠ Unfinished s'.
Proof.
  intros Hmax Hids. revert hints s.
  induction fuel as [|fuel IH]; intros hints s Hinv Hapart Hfuel s'; [lia|].
  simpl.
  destruct (Nat.ltb_spec (size (completed_tasks s))
              (length (Workflow.tasks (sched_workflow s)))); [|done].
  pose proof (loop_body_invariant workers s0 s (hd [] hints) Hinv) as Hinv'.
  destruct (loop_body workers (hd [] hints) s) as [s1| |] eqn:Hbody; [|done..].
  destruct (loop_body_progress s0 s (hd [] hints) s1) as [Hapart1 Hgrow]; try done.
  apply IH; [done..|].
  rewrite <-(ids_length s s1) by (by rewrite (inv_ids _ _ Hinv), (inv_ids _ _ Hinv')).
  lia.
Qed.

(** [execute_workflow] ends when given more fuel than the workflow has
    tasks, if the coordinator has at least one slot and no task id is
    empty. *)
Lemma execute_workflow_ends (hints : list (list string)) (fuel : nat)
    (self : TaskCoordinator.t) (workflow_id : string) (workflow : Workflow.t) :
  TaskCoordinator.workflows self !! workflow_id = Some workflow →
  1 ≤ TaskCoordinator.max_concurrent_tasks self →
  (∀ task, task ∈ Workflow.tasks workflow → WorkflowTask.task_id task ≠ "") →
  (length (Workflow.tasks workflow) < fuel)%nat →
  is_Some (exec_outcome (execute_workflow fuel workers hints self workflow_id)).
Proof.
  intros Hworkflow Hmax Hids Hfuel.
  unfold execute_workflow, _execute_workflow_tasks. rewrite Hworkflow.
  set (s0 := initial self (Workflow.set_status RUNNING workflow)).
  pose proof (while_loop_ends s0 fuel hints s0) as Hends.
  destruct (while_loop fuel workers hints s0) as [s|e s|s]; [done..|].
  exfalso. apply (Hends Hmax) with (s' := s); try done.
  - intros Hin. apply list_elem_of_fmap in Hin as (task & Heq & Hin).
    by apply (Hids task).
  - apply initial_invariant.
  - change (completed_tasks s0) with (∅ : gset string).
    rewrite size_empty. simpl. lia.
Qed.

End termination.

(** ** Progress *)

Lemma log_below_100 s0 s :
  invariant s0 s → loop_condition s →
  ¬ Exists (λ q, (q == 100)%Q) (progress_log s).
Proof.
  intros Hinv Hcond Hex. apply Exists_exists in Hex as (q & Hq & Heq).
  pose proof (inv_bound _ _ Hinv) as Hbound. rewrite Forall_forall in Hbound.
  apply (Qlt_not_eq q 100); [|done].
  eapply Qle_lt_trans; [by apply Hbound|]. by apply progress_of_lt_100.
Qed.

Lemma log_up_to_100 s0 s :
  invariant s0 s → StronglySorted Qle (progress_log s ++ [100%Q]).
Proof.
  intros Hinv. apply StronglySorted_app_2; [|apply Hinv|repeat constructor].
  intros q p Hq Hp. apply list_elem_of_singleton in Hp as ->.
  pose proof (inv_bound _ _ Hinv) as Hbound. rewrite Forall_forall in Hbound.
  eapply Qle_trans; [by apply Hbound|]. apply progress_of_le_100.
  rewrite <-(length_fmap WorkflowTask.task_id).
  apply size_completed_le, Hinv.
Qed.

Lemma progress_of_nonneg (c : gset string) (tasks : list WorkflowTask.t) :
  (0 <= progress_of c tasks)%Q.
Proof.
  unfold progress_of, Qdiv.
  apply Qmult_le_0_compat; [|unfold Qle; simpl; lia].
  apply Qmult_le_0_compat; [unfold Qle; simpl; lia|].
  apply Qinv_le_0_compat. unfold Qle. simpl. lia.
Qed.

Lemma start_tasks_progress_log s l :
  progress_log (start_tasks s l) = progress_log s.
Proof. revert s. induction l as [|r l IH]; intros s; simpl; [done|]. by rewrite IH. Qed.

Lemma handle_done_log_nonneg workers s x :
  Forall (λ q, (0 <= q)%Q) (progress_log s) →
  Forall (λ q, (0 <= q)%Q) (progress_log (handle_done workers s x)).
Proof.
  intros Hs. unfold handle_done.
  destruct (running_tasks s !! x) as [h|]; [|done].
  assert (progress_log match h with
                       | InFlight i => run_coroutine workers s i
                       | Finished _ => s
                       end = progress_log s) as Hlog.
  { destruct h; [apply run_coroutine_frame|done]. }
  case_bool_decide; simpl; rewrite Hlog; [|done].
  apply Forall_app. split; [done|].
  constructor; [apply progress_of_nonneg|constructor].
Qed.

Lemma after_turn_log_nonneg workers hint s :
  Forall (λ q, (0 <= q)%Q) (progress_log s) →
  Forall (λ q, (0 <= q)%Q) (progress_log (after_turn workers hint s)).
Proof.
  intros Hs.
  assert (Forall (λ q, (0 <= q)%Q)
            (progress_log (await_and_collect workers hint
                             (start_tasks s (tasks_to_start s))))) as Hs2.
  { assert (Forall (λ q, (0 <= q)%Q)
              (progress_log (start_tasks s (tasks_to_start s)))) as Hs1
      by (by rewrite start_tasks_progress_log).
    unfold await_and_collect. case_decide; [done|].
    revert Hs1.
    generalize (elements (wait_first_completed
                            (running_tasks (start_tasks s (tasks_to_start s))) hint)).
    generalize (start_tasks s (tasks_to_start s)). intros s1 l. revert s1.
    induction l as [|x l IH]; intros s1 Hs1; [done|].
    simpl. by apply IH, handle_done_log_nonneg. }
  unfold after_turn, loop_body.
  destruct (bool_decide (ready_of s = []) && _); [|done].
  by destruct (remaining_tasks _ _).
Qed.

Lemma while_loop_log_nonneg workers fuel :
  ∀ hints s,
    Forall (λ q, (0 <= q)%Q) (progress_log s) →
    Forall (λ q, (0 <= q)%Q)
      (progress_log match while_loop fuel workers hints s with
                    | Returned s' | Raised _ s' | Unfinished s' => s'
                    end).
Proof.
  induction fuel as [|fuel IH]; intros hints s Hs; simpl.
  - by destruct (_ <? _)%nat.
  - destruct (_ <? _)%nat; [|done].
    pose proof (after_turn_log_nonneg workers (hd [] hints) s Hs) as Hturn.
    unfold after_turn in Hturn.
    destruct (loop_body workers (hd [] hints) s) as [s'|s'|e s']; [|done..].
    by apply IH.
Qed.

Lemma sorted_from_zero (p0 : Q) (log : list Q) :
  (p0 == 0)%Q →
  Forall (λ q, (0 <= q)%Q) log →
  StronglySorted Qle log → StronglySorted Qle (p0 :: log).
Proof.
  intros H0 Hnn Hsorted. constructor; [done|].
  eapply Forall_impl; [exact Hnn|]. intros q Hq. simpl in *. by rewrite H0.
Qed.

Lemma last_default_cases {A} (l : list A) (d : A) :
  List.last l d = d ∨ List.last l d ∈ l.
Proof.
  induction l as [|x l IH]; [by left|].
  destruct l as [|y l]; [right; left|].
  change (List.last (x :: y :: l) d) with (List.last (y :: l) d).
  destruct IH as [IH|IH]; [by left|by right; right].
Qed.

(** C6: for a workflow whose progress is 0 when [execute_workflow] is
    called, as [create_workflow] leaves it, the values that
    [workflow.progress] holds during the call (the value at the start, then
    each value assigned) never decrease, the progress the workflow is left
    with is the last of them, and it is 100 (as is any of them) if and only
    if the workflow is left COMPLETED.  This holds of every prefix of the
    run as well; and the call ends, given more fuel than the workflow has
    tasks, when the coordinator has at least one slot and no task id is
    empty. *)
Theorem progress_monotone_and_complete (workers : string → nat → attempt)
    (hints : list (list string)) (fuel : nat) (self : TaskCoordinator.t)
    (workflow_id : string) (workflow : Workflow.t)
    (Hworkflow : TaskCoordinator.workflows self !! workflow_id = Some workflow)
    (Hfresh : (Workflow.progress workflow == 0)%Q) :
  ∃ workflow',
    TaskCoordinator.workflows
      (exec_self (execute_workflow fuel workers hints self workflow_id))
      !! workflow_id = Some workflow'
    ∧ StronglySorted Qle
        (Workflow.progress workflow
         :: exec_progress_log (execute_workflow fuel workers hints self workflow_id))
    ∧ Workflow.progress workflow'
      = List.last
          (exec_progress_log (execute_workflow fuel workers hints self workflow_id))
          (Workflow.progress workflow)
    ∧ (Exists (λ q, (q == 100)%Q)
         (Workflow.progress workflow
          :: exec_progress_log (execute_workflow fuel workers hints self workflow_id))
       ↔ Workflow.status workflow' = COMPLETED)
    ∧ ((Workflow.progress workflow' == 100)%Q
       ↔ Workflow.status workflow' = COMPLETED)
    ∧ (1 ≤ TaskCoordinator.max_concurrent_tasks self →
       (∀ task, task ∈ Workflow.tasks workflow → WorkflowTask.task_id task ≠ "") →
       (length (Workflow.tasks workflow) < fuel)%nat →
       is_Some (exec_outcome (execute_workflow fuel workers hints self workflow_id))).
Proof.
  assert (1 ≤ TaskCoordinator.max_concurrent_tasks self →
          (∀ task, task ∈ Workflow.tasks workflow → WorkflowTask.task_id task ≠ "") →
          (length (Workflow.tasks workflow) < fuel)%nat →
          is_Some (exec_outcome (execute_workflow fuel workers hints self workflow_id)))
    as Hends by (by apply execute_workflow_ends).
  revert Hends.
  assert (¬ (Workflow.progress workflow == 100)%Q) as Hstart
    by (rewrite Hfresh; discriminate).
  unfold execute_workflow, _execute_workflow_tasks. rewrite Hworkflow.
  set (s0 := initial self (Workflow.set_status RUNNING workflow)).
  pose proof (while_loop_invariant workers s0 fuel hints s0
                (initial_invariant _ _)) as Hloop.
  pose proof (while_loop_log_nonneg workers fuel hints s0 (Forall_nil_2 _)) as Hnn.
  assert (∀ s, invariant s0 s → loop_condition s →
               ¬ (Workflow.progress (sched_workflow s) == 100)%Q) as Hbelow.
  { intros s Hinv Hcond. rewrite (inv_progress _ _ Hinv). simpl.
    destruct (last_default_cases (progress_log s) (Workflow.progress workflow))
      as [-> | Hin]; [done|].
    intros Heq. apply (log_below_100 s0 s Hinv Hcond).
    apply Exists_exists. by eexists. }
  destruct (while_loop fuel workers hints s0) as [s|e s|s]; simpl.
  - intros Hends. eexists. split; [apply lookup_insert_eq|]. simpl.
    split.
    { apply sorted_from_zero; [done| |by eapply log_up_to_100].
      apply Forall_app. split; [done|]. by repeat constructor. }
    split; [by rewrite last_last|].
    split; [|done]. split; [done|]. intros _. right. apply Exists_app. right. by left.
  - intros Hends. destruct Hloop as (Hinv & Hcond & _).
    eexists. split; [apply lookup_insert_eq|]. simpl.
    split; [by apply sorted_from_zero; [| |apply Hinv]|]. split; [apply Hinv|].
    split; [|split; [|done]].
    + split; [|done]. intros Hex. apply Exists_cons in Hex as [Hex|Hex]; [done|].
      by eapply log_below_100 in Hex.
    + split; [|done]. intros Heq. by destruct (Hbelow s Hinv Hcond).
  - intros Hends. destruct Hloop as (Hinv & Hcond).
    eexists. split; [apply lookup_insert_eq|].
    split; [by apply sorted_from_zero; [| |apply Hinv]|]. split; [apply Hinv|].
    split; [|split; [|done]].
    + split.
      * intros Hex. apply Exists_cons in Hex as [Hex|Hex]; [done|].
        by eapply log_below_100 in Hex.
      * rewrite (inv_status _ _ Hinv). done.
    + split.
      * intros Heq. by destruct (Hbelow s Hinv Hcond).
      * rewrite (inv_status _ _ Hinv). done.
Qed.

Lemma progress_witness :
  ∃ workflow',
    TaskCoordinator.workflows
      (exec_self (execute_workflow 3 succeeds_always [] (coordinator_with two_tasks) "wf"))
      !! "wf" = Some workflow'
    ∧ StronglySorted Qle
        (Workflow.progress two_tasks_workflow
         :: exec_progress_log
              (execute_workflow 3 succeeds_always [] (coordinator_with two_tasks) "wf"))
    ∧ Workflow.progress workflow'
      = List.last
          (exec_progress_log
             (execute_workflow 3 succeeds_always [] (coordinator_with two_tasks) "wf"))
          (Workflow.progress two_tasks_workflow)
    ∧ (Exists (λ q, (q == 100)%Q)
         (Workflow.progress two_tasks_workflow
          :: exec_progress_log
               (execute_workflow 3 succeeds_always [] (coordinator_with two_tasks) "wf"))
       ↔ Workflow.status workflow' = COMPLETED)
    ∧ ((Workflow.progress workflow' == 100)%Q
       ↔ Workflow.status workflow' = COMPLETED)
    ∧ (1 ≤ 5 →
       (∀ task, task ∈ two_tasks → WorkflowTask.task_id task ≠ "") →
       (2 < 3)%nat →
       is_Some
         (exec_outcome
            (execute_workflow 3 succeeds_always [] (coordinator_with two_tasks) "wf"))).
Proof.
  apply (progress_monotone_and_complete succeeds_always [] 3
           (coordinator_with two_tasks) "wf" two_tasks_workflow).
  - reflexivity.
  - reflexivity.
Defined.

(** C6 as stated, of every workflow, fails: [execute_workflow] does not
    reset [workflow.progress].  A workflow that has been run, when a task
    is added to it and it is executed again, starts at progress 100 and is
    assigned 100/3; and a finished workflow that is executed again is left
    FAILED with progress 100. *)
Lemma progress_not_reset_by_execute_workflow :
  ¬ (∀ (workers : string → nat → attempt) (hints : list (list string))
       (fuel : nat) (self : TaskCoordinator.t) (workflow_id : string)
       (workflow : Workflow.t),
       TaskCoordinator.workflows self !! workflow_id = Some workflow →
       StronglySorted Qle
         (Workflow.progress workflow
          :: exec_progress_log (execute_workflow fuel workers hints self workflow_id)))
  ∧ ¬ (∀ (workers : string → nat → attempt) (hints : list (list string))
         (fuel : nat) (self : TaskCoordinator.t) (workflow_id : string)
         (workflow' : Workflow.t),
         TaskCoordinator.workflows
           (exec_self (execute_workflow fuel workers hints self workflow_id))
           !! workflow_id = Some workflow' →
         ((Workflow.progress workflow' == 100)%Q
          ↔ Workflow.status workflow' = COMPLETED)).
Proof.
  split; intros H.
  - pose proof (H succeeds_always [] 4%nat after_first_run_extended "wf"
                  (Workflow.mk "wf" "demo" ""
                     [WorkflowTask.set_status "completed"
                        (WorkflowTask.set_result (Some (report_of "t1"))
                           (task_for "t1" [] 3));
                      WorkflowTask.set_status "completed"
                        (WorkflowTask.set_result (Some (report_of "t2"))
                           (task_for "t2" ["t1"] 3));
                      task_for "t3" [] 3]
                     COMPLETED 100%Q None)) as Hsorted.
    assert (exec_progress_log
              (execute_workflow 4 succeeds_always [] after_first_run_extended "wf")
            = [100 # 3]) as Hlog by (vm_compute; reflexivity).
    rewrite Hlog in Hsorted.
    assert (StronglySorted Qle [100%Q; 100 # 3]) as Hdecreasing
      by (apply Hsorted; vm_compute; reflexivity).
    apply StronglySorted_inv in Hdecreasing as [_ Hle].
    apply Forall_inv in Hle. unfold Qle in Hle. simpl in Hle. lia.
  - destruct (H succeeds_always [] 3%nat after_first_run "wf"
                (Workflow.mk "wf" "demo" ""
                   [WorkflowTask.set_status "completed"
                      (WorkflowTask.set_result (Some (report_of "t1"))
                         (task_for "t1" [] 3));
                    WorkflowTask.set_status "completed"
                      (WorkflowTask.set_result (Some (report_of "t2"))
                         (task_for "t2" ["t1"] 3))]
                   FAILED 100%Q
                   (Some (UnresolvedDepsMsg ["t2 -> t1"])))) as [Hcompleted _];
      [vm_compute; reflexivity|].
    discriminate Hcompleted. reflexivity.
Qed.

(** * Further properties of the coordinator *)

(** ** Dispatch order *)

Lemma get_ready_tasks_sorted (workflow : Workflow.t) (completed : gset string)
    (running : gmap string async_task) :
  StronglySorted before (_get_ready_tasks workflow completed running).
Proof.
  unfold _get_ready_tasks.
  apply sort_by_priority_reverse_sorted, filter_ascending.
  apply (enumerate_ascending_from (Workflow.tasks workflow) 0).
Qed.

Lemma slice_to_take {A} (l : list A) (k : Z) : ∃ n, slice_to l k = take n l.
Proof. unfold slice_to. destruct (0 <=? k); eauto. Qed.

(** X1: in every turn the tasks started are the front of the ready list:
    a task that is started comes before every ready task that is left
    waiting, that is, it has a higher priority, or the same priority and
    an earlier position in [workflow.tasks]. *)
Theorem started_before_waiting (s : sched) (r r' : task_ref)
    (Hstarted : r ∈ tasks_to_start s)
    (Hready : r' ∈ ready_of s)
    (Hwaiting : r' ∉ tasks_to_start s) :
  WorkflowTask.priority r'.2 < WorkflowTask.priority r.2
  ∨ (WorkflowTask.priority r.2 = WorkflowTask.priority r'.2 ∧ (r.1 < r'.1)%nat).
Proof.
  unfold tasks_to_start in *.
  destruct (slice_to_take (ready_of s) (available_slots s)) as [n Hn].
  rewrite Hn in Hstarted, Hwaiting.
  pose proof (get_ready_tasks_sorted (sched_workflow s) (completed_tasks s)
                (running_tasks s)) as Hsorted.
  fold (ready_of s) in Hsorted. rewrite <-(take_drop n (ready_of s)) in Hsorted.
  apply (StronglySorted_app_1_elem_of _ _ _ r r' Hsorted); [done|].
  rewrite <-(take_drop n (ready_of s)) in Hready.
  by apply elem_of_app in Hready as [Hready|Hready].
Qed.

Lemma started_before_waiting_witness :
  WorkflowTask.priority (task_for "low" [] 3) < WorkflowTask.priority urgent_task
  ∨ (WorkflowTask.priority urgent_task = WorkflowTask.priority (task_for "low" [] 3)
     ∧ (1 < 0)%nat).
Proof.
  apply (started_before_waiting one_slot_state (1%nat, urgent_task)
           (0%nat, task_for "low" [] 3)).
  - vm_compute. apply list_elem_of_here.
  - vm_compute. apply list_elem_of_further, list_elem_of_here.
  - vm_compute. intros H. apply list_elem_of_singleton in H. discriminate H.
Defined.

Lemma handle_done_dispatched workers s x :
  dispatched s ⊆ dispatched (handle_done workers s x).
Proof.
  unfold handle_done.
  destruct (running_tasks s !! x) as [h|] eqn:Hh; [|done].
  set (s1 := match h with
             | InFlight i => run_coroutine workers s i
             | Finished _ => s
             end).
  assert (completed_tasks s1 = completed_tasks s
          ∧ running_tasks s1 = running_tasks s) as [Hc Hr].
  { subst s1. destruct h; [|done].
    by destruct (run_coroutine_frame workers s i) as (-> & -> & _). }
  clearbody s1. unfold dispatched.
  case_bool_decide; simpl; rewrite Hc, Hr; intros y Hy.
  - rewrite dom_delete_L. destruct (decide (y = x)) as [->|Hne].
    + apply elem_of_union. right. apply elem_of_union. right.
      by apply elem_of_singleton.
    + apply elem_of_union in Hy as [Hy|Hy].
      * apply elem_of_union. left. apply elem_of_difference. split; [done|].
        by rewrite elem_of_singleton.
      * apply elem_of_union. right. apply elem_of_union. by left.
  - rewrite dom_insert_L. apply elem_of_union in Hy as [Hy|Hy].
    + apply elem_of_union. left. apply elem_of_union. by right.
    + apply elem_of_union. by right.
Qed.

Lemma foldl_handle_done_dispatched workers s l :
  dispatched s ⊆ dispatched (foldl (handle_done workers) s l).
Proof.
  revert s. induction l as [|x l IH]; intros s; [done|].
  simpl. etrans; [apply handle_done_dispatched|apply IH].
Qed.

Lemma start_tasks_dispatched s l :
  dispatched s ⊆ dispatched (start_tasks s l)
  ∧ ∀ r, r ∈ l → WorkflowTask.task_id r.2 ∈ dispatched (start_tasks s l).
Proof.
  unfold dispatched. rewrite start_tasks_completed. split.
  - intros y Hy. apply elem_of_union in Hy as [Hy|Hy].
    + apply elem_of_union. left. by apply start_tasks_running.
    + apply elem_of_union. by right.
  - revert s. induction l as [|r0 l IH]; intros s r Hr.
    + by apply elem_of_nil in Hr.
    + apply elem_of_cons in Hr as [->|Hr].
      * apply elem_of_union. left. apply start_tasks_running_head.
      * specialize (IH (start_task s r0) r Hr). simpl in *.
        apply elem_of_union in IH as [IH|IH]; apply elem_of_union; [by left|by right].
Qed.

Lemma loop_body_dispatched workers hint s s' :
  loop_body workers hint s = Continue s' →
  dispatched s ⊆ dispatched s'
  ∧ ∀ r, r ∈ tasks_to_start s → WorkflowTask.task_id r.2 ∈ dispatched s'.
Proof.
  intros Hbody. unfold loop_body in Hbody.
  destruct (bool_decide (ready_of s = []) && _) in Hbody;
    [by destruct (remaining_tasks _ _)|].
  injection Hbody as <-.
  destruct (start_tasks_dispatched s (tasks_to_start s)) as [Hmono Hnew].
  assert (dispatched (start_tasks s (tasks_to_start s))
          ⊆ dispatched (await_and_collect workers hint
                          (start_tasks s (tasks_to_start s)))) as Hwait.
  { unfold await_and_collect. case_decide; [done|].
    apply foldl_handle_done_dispatched. }
  split; [by etrans|]. intros r Hr. by apply Hwait, Hnew.
Qed.

Lemma turns_dispatched workers hints s k s' :
  turns workers hints s k s' → dispatched s ⊆ dispatched s'.
Proof.
  induction 1 as [|hints s s1 k s2 Hcond Hbody _ IH]; [done|].
  etrans; [|exact IH]. by apply (loop_body_dispatched workers (hd [] hints)).
Qed.

(** X2: a task id started in one turn of the loop is not started again in
    any later turn of the same run. *)
Theorem never_started_in_two_turns (workers : string → nat → attempt)
    (hints : list (list string)) (s s1 s' : sched) (k : nat) (r r' : task_ref)
    (Hturn : loop_body workers (hd [] hints) s = Continue s1)
    (Hlater : turns workers (tl hints) s1 k s')
    (Hfirst : r ∈ tasks_to_start s)
    (Hsecond : r' ∈ tasks_to_start s') :
  WorkflowTask.task_id r.2 ≠ WorkflowTask.task_id r'.2.
Proof.
  intros Heq.
  destruct (loop_body_dispatched workers (hd [] hints) s s1 Hturn) as [_ Hnew].
  apply Hnew, (turns_dispatched workers (tl hints) s1 k s' Hlater) in Hfirst.
  apply elem_of_slice_to in Hsecond. destruct r' as [i task].
  apply elem_of_get_ready_tasks in Hsecond as [_ Hsel].
  apply selected_spec in Hsel as (Hc & Hr & _). simpl in *.
  rewrite Heq in Hfirst. apply elem_of_union in Hfirst as [Hin|Hin]; [|done].
  apply elem_of_dom in Hin as [h Hh]. by rewrite Hr in Hh.
Qed.

Lemma never_started_in_two_turns_witness :
  WorkflowTask.task_id (task_for "t1" [] 3)
  ≠ WorkflowTask.task_id (task_for "t2" ["t1"] 3).
Proof.
  apply (never_started_in_two_turns succeeds_always []
           (initial (coordinator_with two_tasks) two_tasks_workflow)
           (after_turn succeeds_always []
              (initial (coordinator_with two_tasks) two_tasks_workflow))
           (after_turn succeeds_always []
              (initial (coordinator_with two_tasks) two_tasks_workflow))
           0%nat (0%nat, task_for "t1" [] 3) (1%nat, task_for "t2" ["t1"] 3)).
  - vm_compute. reflexivity.
  - constructor.
  - vm_compute. apply list_elem_of_here.
  - vm_compute. apply list_elem_of_here.
Defined.

(** ** Edge cases of [execute_workflow] *)

(** X3: a workflow without tasks is completed at once: whatever the fuel,
    the workers and the event loop, [execute_workflow] returns it
    COMPLETED at progress 100 and leaves the rest of the coordinator as it
    was. *)
Theorem empty_workflow_completes (workers : string → nat → attempt)
    (hints : list (list string)) (fuel : nat) (self : TaskCoordinator.t)
    (workflow_id : string) (workflow : Workflow.t)
    (Hworkflow : TaskCoordinator.workflows self !! workflow_id = Some workflow)
    (Hempty : Workflow.tasks workflow = []) :
  execute_workflow fuel workers hints self workflow_id
  = mk_execution
      (Some (inr (Workflow.mk (Workflow.workflow_id workflow) (Workflow.name workflow)
                    (Workflow.description workflow) [] COMPLETED 100%Q
                    (Workflow.error_message workflow))))
      (store_workflow workflow_id
         (Workflow.mk (Workflow.workflow_id workflow) (Workflow.name workflow)
            (Workflow.description workflow) [] COMPLETED 100%Q
            (Workflow.error_message workflow))
         self)
      [100%Q].
Proof.
  unfold execute_workflow, _execute_workflow_tasks. rewrite Hworkflow.
  assert (while_loop fuel workers hints
            (initial self (Workflow.set_status RUNNING workflow))
          = Returned (initial self (Workflow.set_status RUNNING workflow))) as ->.
  { destruct fuel; simpl; by rewrite Hempty. }
  simpl. unfold Workflow.set_progress, Workflow.set_status. simpl.
  by rewrite Hempty.
Qed.

Lemma empty_workflow_completes_witness :
  execute_workflow 0 succeeds_always [] (coordinator_with []) "wf"
  = mk_execution
      (Some (inr (Workflow.mk "wf" "demo" "" [] COMPLETED 100%Q None)))
      (store_workflow "wf" (Workflow.mk "wf" "demo" "" [] COMPLETED 100%Q None)
         (coordinator_with []))
      [100%Q].
Proof.
  apply (empty_workflow_completes succeeds_always [] 0 (coordinator_with []) "wf"
           (Workflow.mk "wf" "demo" "" [] IDLE 0%Q None)); reflexivity.
Defined.

Lemma ready_of_nonempty s task i :
  Workflow.tasks (sched_workflow s) !! i = Some task →
  selected (completed_tasks s) (running_tasks s) (i, task) = true →
  ready_of s ≠ [].
Proof.
  intros Hi Hsel Hnil.
  assert ((i, task) ∈ ready_of s) as Hin by (by apply elem_of_get_ready_tasks).
  rewrite Hnil in Hin. by apply elem_of_nil in Hin.
Qed.

(** X4: with [max_concurrent_tasks = 0] a workflow that holds a pending
    task without dependencies never ends: every turn of the loop finds
    the task ready, has no slot for it and nothing to wait for, so the
    loop spins; no task is started and no progress is recorded. *)
Theorem zero_slots_never_end (workers : string → nat → attempt)
    (hints : list (list string)) (fuel : nat) (self : TaskCoordinator.t)
    (workflow_id : string) (workflow : Workflow.t) (task : WorkflowTask.t)
    (Hworkflow : TaskCoordinator.workflows self !! workflow_id = Some workflow)
    (Hslots : TaskCoordinator.max_concurrent_tasks self = 0)
    (Htask : task ∈ Workflow.tasks workflow)
    (Hpending : WorkflowTask.status task = "pending")
    (Hfree : WorkflowTask.dependencies task = []) :
  execute_workflow fuel workers hints self workflow_id
  = mk_execution None
      (store_workflow workflow_id (Workflow.set_status RUNNING workflow) self) [].
Proof.
  unfold execute_workflow, _execute_workflow_tasks. rewrite Hworkflow.
  set (s0 := initial self (Workflow.set_status RUNNING workflow)).
  assert (∀ hint, loop_body workers hint s0 = Continue s0) as Hbody.
  { intros hint. unfold loop_body, tasks_to_start, available_slots.
    change (running_tasks s0) with (∅ : gmap string async_task).
    change (sched_self s0) with self.
    rewrite Hslots, map_size_empty. unfold slice_to. simpl.
    unfold await_and_collect. rewrite decide_True by done.
    apply list_elem_of_lookup in Htask as [i Hi].
    rewrite bool_decide_eq_false_2; [done|].
    apply (ready_of_nonempty s0 task i); [done|].
    apply selected_spec. simpl. rewrite Hpending, Hfree.
    repeat split; try done. intros dep Hdep. by apply elem_of_nil in Hdep. }
  assert (∀ fuel hints, while_loop fuel workers hints s0 = Unfinished s0) as ->; [|done].
  clear fuel hints. intros fuel. induction fuel as [|fuel IH]; intros hints; simpl.
  - destruct (Workflow.tasks workflow); [by apply elem_of_nil in Htask|done].
  - destruct (Workflow.tasks workflow); [by apply elem_of_nil in Htask|].
    simpl. by rewrite Hbody, IH.
Qed.

Lemma zero_slots_never_end_witness :
  execute_workflow 50 succeeds_always []
    (TaskCoordinator.mk {[ "researcher_001" := researcher ]}
       {[ "wf" := two_tasks_workflow ]} [] [] 0 300)
    "wf"
  = mk_execution None
      (store_workflow "wf" (Workflow.set_status RUNNING two_tasks_workflow)
         (TaskCoordinator.mk {[ "researcher_001" := researcher ]}
            {[ "wf" := two_tasks_workflow ]} [] [] 0 300))
      [].
Proof.
  apply (zero_slots_never_end succeeds_always [] 50
           (TaskCoordinator.mk {[ "researcher_001" := researcher ]}
              {[ "wf" := two_tasks_workflow ]} [] [] 0 300)
           "wf" two_tasks_workflow (task_for "t1" [] 3)).
  - reflexivity.
  - reflexivity.
  - left.
  - reflexivity.
  - reflexivity.
Defined.

(** X5: executing again a workflow whose tasks are all "completed" (or
    "running"), as a finished run leaves them, fails: no task is ready and
    the completed set starts empty, so the first turn raises the dead-end
    exception, which lists every declared dependency edge; the workflow is
    left FAILED and no worker is invoked. *)
Theorem finished_workflow_cannot_run_again (workers : string → nat → attempt)
    (hints : list (list string)) (fuel : nat) (self : TaskCoordinator.t)
    (workflow_id : string) (workflow : Workflow.t)
    (Hworkflow : TaskCoordinator.workflows self !! workflow_id = Some workflow)
    (Hsome : Workflow.tasks workflow ≠ [])
    (Hdone : ∀ task, task ∈ Workflow.tasks workflow →
               WorkflowTask.status task = "completed"
               ∨ WorkflowTask.status task = "running") :
  execute_workflow (S fuel) workers hints self workflow_id
  = mk_execution
      (Some (inl (PyException (UnresolvedDepsMsg (unresolved_deps workflow ∅)))))
      (store_workflow workflow_id
         (Workflow.set_error_message
            (Some (UnresolvedDepsMsg (unresolved_deps workflow ∅)))
            (Workflow.set_status FAILED workflow))
         self)
      []
  ∧ ∀ task dep,
      task ∈ Workflow.tasks workflow →
      dep ∈ WorkflowTask.dependencies task →
      (WorkflowTask.task_id task +:+ " -> " +:+ dep) ∈ unresolved_deps workflow ∅.
Proof.
  split.
  - unfold execute_workflow, _execute_workflow_tasks. rewrite Hworkflow.
    set (s0 := initial self (Workflow.set_status RUNNING workflow)).
    destruct (Workflow.tasks workflow) as [|task rest] eqn:Htasks; [done|].
    assert (ready_of s0 = []) as Hready.
    { destruct (ready_of s0) as [|[i t] l] eqn:Hr; [done|]. exfalso.
      assert ((i, t) ∈ ready_of s0) as Hin by (rewrite Hr; left).
      apply elem_of_get_ready_tasks in Hin as [Hi Hsel].
      apply selected_spec in Hsel as (_ & _ & Hc & Hrun & _). simpl in *.
      apply list_elem_of_lookup_2 in Hi. rewrite Htasks in Hi.
      destruct (Hdone t Hi); done. }
    simpl. rewrite Htasks. simpl.
    rewrite (loop_body_dead_end workers _ s0 task); try done.
    simpl. rewrite Htasks. left.
  - intros task dep Htask Hdep. unfold unresolved_deps.
    apply (list_elem_of_fmap_2' _ _ (WorkflowTask.task_id task, dep)); [|done].
    apply elem_of_unresolved_pairs. exists task.
    repeat split; try done; apply not_elem_of_empty.
Qed.

Lemma finished_workflow_cannot_run_again_witness :
  execute_workflow 1 succeeds_always [] finished_coordinator "wf"
  = mk_execution
      (Some (inl (PyException (UnresolvedDepsMsg (unresolved_deps finished_workflow ∅)))))
      (store_workflow "wf"
         (Workflow.set_error_message
            (Some (UnresolvedDepsMsg (unresolved_deps finished_workflow ∅)))
            (Workflow.set_status FAILED finished_workflow))
         finished_coordinator)
      []
  ∧ ∀ task dep,
      task ∈ Workflow.tasks finished_workflow →
      dep ∈ WorkflowTask.dependencies task →
      (WorkflowTask.task_id task +:+ " -> " +:+ dep)
      ∈ unresolved_deps finished_workflow ∅.
Proof.
  apply (finished_workflow_cannot_run_again succeeds_always [] 0
           finished_coordinator "wf" finished_workflow).
  - reflexivity.
  - discriminate.
  - intros task Htask. left.
    apply elem_of_cons in Htask as [->|Htask]; [reflexivity|].
    apply list_elem_of_singleton in Htask as ->. reflexivity.
Defined.

(** ** What [execute_workflow] leaves alone *)

Lemma history_extended_refl self : history_extended self self.
Proof. exists []. destruct self. unfold TaskCoordinator.set_task_history. simpl.
  by rewrite app_nil_r. Qed.

Lemma history_extended_trans self1 self2 self3 :
  history_extended self1 self2 → history_extended self2 self3 →
  history_extended self1 self3.
Proof.
  intros [e1 ->] [e2 ->]. exists (e1 ++ e2)%list. destruct self1.
  unfold TaskCoordinator.set_task_history. simpl. by rewrite app_assoc.
Qed.

Lemma execute_single_task_history self worker n task :
  history_extended self (run_self (_execute_single_task self worker n task)).
Proof.
  remember (Z.to_nat (WorkflowTask.max_retries task - WorkflowTask.retry_count task))
    as k eqn:Hk.
  revert n task Hk. induction k as [k IH] using lt_wf_ind. intros n task Hk.
  rewrite execute_single_task_unfold.
  destruct (TaskCoordinator.agents self !! WorkflowTask.agent_id task);
    [|apply history_extended_refl].
  destruct (worker n); [by eexists| |]; case_bool_decide;
    try apply history_extended_refl.
  - eapply IH; [|done]. simpl. lia.
  - eapply IH; [|done]. simpl. lia.
Qed.

Lemma start_tasks_history s l :
  history_extended (sched_self s) (sched_self (start_tasks s l)).
Proof. rewrite start_tasks_self. apply history_extended_refl. Qed.

Lemma handle_done_history workers s x :
  history_extended (sched_self s) (sched_self (handle_done workers s x)).
Proof.
  unfold handle_done.
  destruct (running_tasks s !! x) as [h|]; [|apply history_extended_refl].
  assert (history_extended (sched_self s)
            (sched_self match h with
                        | InFlight i => run_coroutine workers s i
                        | Finished _ => s
                        end)) as Hs1.
  { destruct h; [|apply history_extended_refl]. unfold run_coroutine.
    destruct (Workflow.tasks (sched_workflow s) !! i);
      [apply execute_single_task_history|apply history_extended_refl]. }
  by case_bool_decide.
Qed.

Lemma loop_body_history workers hint s :
  history_extended (sched_self s) (sched_self (after_turn workers hint s)).
Proof.
  assert (history_extended (sched_self s)
            (sched_self (await_and_collect workers hint
                           (start_tasks s (tasks_to_start s))))) as Hs2.
  { eapply history_extended_trans; [apply start_tasks_history|].
    unfold await_and_collect. case_decide; [apply history_extended_refl|].
    generalize (elements (wait_first_completed
                            (running_tasks (start_tasks s (tasks_to_start s))) hint)).
    generalize (start_tasks s (tasks_to_start s)). intros s1 l. revert s1.
    induction l as [|x l IH]; intros s1; [apply history_extended_refl|].
    simpl. eapply history_extended_trans; [apply handle_done_history|apply IH]. }
  unfold after_turn, loop_body.
  destruct (bool_decide (ready_of s = []) && _); [|done].
  by destruct (remaining_tasks _ _).
Qed.

Lemma while_loop_history workers fuel hints s :
  history_extended (sched_self s)
    (sched_self match while_loop fuel workers hints s with
                | Returned s' | Raised _ s' | Unfinished s' => s'
                end).
Proof.
  revert hints s. induction fuel as [|fuel IH]; intros hints s; simpl.
  - destruct (_ <? _)%nat; apply history_extended_refl.
  - destruct (_ <? _)%nat; [|apply history_extended_refl].
    pose proof (loop_body_history workers (hd [] hints) s) as Hturn.
    unfold after_turn in Hturn.
    destruct (loop_body workers (hd [] hints) s) as [s'|s'|e s']; [|done..].
    eapply history_extended_trans; [exact Hturn|apply IH].
Qed.

(** X6: a call of [execute_workflow] registers and unregisters no agent,
    leaves the message queue, the two settings of the coordinator and
    every other workflow as they were, and only appends to
    [task_history], whose earlier entries stay. *)
Theorem execute_workflow_frame (workers : string → nat → attempt)
    (hints : list (list string)) (fuel : nat) (self : TaskCoordinator.t)
    (workflow_id : string) :
  dom (TaskCoordinator.agents
         (exec_self (execute_workflow fuel workers hints self workflow_id)))
  = dom (TaskCoordinator.agents self)
  ∧ TaskCoordinator.message_queue
      (exec_self (execute_workflow fuel workers hints self workflow_id))
    = TaskCoordinator.message_queue self
  ∧ TaskCoordinator.max_concurrent_tasks
      (exec_self (execute_workflow fuel workers hints self workflow_id))
    = TaskCoordinator.max_concurrent_tasks self
  ∧ TaskCoordinator.default_timeout
      (exec_self (execute_workflow fuel workers hints self workflow_id))
    = TaskCoordinator.default_timeout self
  ∧ (∀ other, other ≠ workflow_id →
       TaskCoordinator.workflows
         (exec_self (execute_workflow fuel workers hints self workflow_id)) !! other
       = TaskCoordinator.workflows self !! other)
  ∧ ∃ extra,
      TaskCoordinator.task_history
        (exec_self (execute_workflow fuel workers hints self workflow_id))
      = (TaskCoordinator.task_history self ++ extra)%list.
Proof.
  unfold execute_workflow, _execute_workflow_tasks.
  destruct (TaskCoordinator.workflows self !! workflow_id) as [workflow|];
    [|simpl; repeat split; try done; exists []; by rewrite app_nil_r].
  pose proof (while_loop_history workers fuel hints
                (initial self (Workflow.set_status RUNNING workflow))) as Hext.
  destruct (while_loop fuel workers hints _) as [s|e s|s];
    destruct Hext as [extra Hext]; simpl in *; rewrite Hext; simpl;
    (repeat split; try done;
     [intros other Hne; by rewrite lookup_insert_ne|by exists extra]).
Qed.

(** ** Retries *)

(** X7: a call of [_execute_single_task] for a task whose agent is
    registered, whose every attempt times out or raises and whose
    [retry_count] does not exceed [max_retries], invokes the worker
    [max_retries - retry_count + 1] times, leaves the task "failed" with
    [retry_count = max_retries], raises, and appends nothing to the
    [task_history] of the coordinator. *)
Theorem retry_budget_bounds_attempts (self : TaskCoordinator.t)
    (worker : nat → attempt) (task : WorkflowTask.t) (agent : BaseAgent.t)
    (Hagent : TaskCoordinator.agents self !! WorkflowTask.agent_id task = Some agent)
    (Hfails : ∀ k result, worker k ≠ Returns result)
    (Hbudget : WorkflowTask.retry_count task ≤ WorkflowTask.max_retries task) :
  Z.of_nat (run_attempts (_execute_single_task self worker 0 task))
  = WorkflowTask.max_retries task - WorkflowTask.retry_count task + 1
  ∧ WorkflowTask.status (run_task (_execute_single_task self worker 0 task))
    = "failed"
  ∧ WorkflowTask.retry_count (run_task (_execute_single_task self worker 0 task))
    = WorkflowTask.max_retries task
  ∧ (∃ e, run_outcome (_execute_single_task self worker 0 task) = inl e)
  ∧ TaskCoordinator.task_history
      (run_self (_execute_single_task self worker 0 task))
    = TaskCoordinator.task_history self.
Proof.
  destruct (retries_exhausted self worker 0 task agent Hagent Hfails Hbudget)
    as (H1 & H2 & H3 & H4 & H5).
  repeat split; try done; [rewrite H1; lia|by rewrite H5].
Qed.

Lemma retry_budget_bounds_attempts_witness :
  Z.of_nat
    (run_attempts
       (_execute_single_task (coordinator_with []) (always_raises "t1") 0
          (task_for "t1" [] 2)))
  = 2 - 0 + 1
  ∧ WorkflowTask.status
      (run_task
         (_execute_single_task (coordinator_with []) (always_raises "t1") 0
            (task_for "t1" [] 2)))
    = "failed"
  ∧ WorkflowTask.retry_count
      (run_task
         (_execute_single_task (coordinator_with []) (always_raises "t1") 0
            (task_for "t1" [] 2)))
    = 2
  ∧ (∃ e,
       run_outcome
         (_execute_single_task (coordinator_with []) (always_raises "t1") 0
            (task_for "t1" [] 2))
       = inl e)
  ∧ TaskCoordinator.task_history
      (run_self
         (_execute_single_task (coordinator_with []) (always_raises "t1") 0
            (task_for "t1" [] 2)))
    = TaskCoordinator.task_history (coordinator_with []).
Proof.
  apply (retry_budget_bounds_attempts (coordinator_with []) (always_raises "t1")
           (task_for "t1" [] 2) researcher).
  - reflexivity.
  - intros k result. discriminate.
  - simpl. lia.
Defined.

Lemma success_after_failures_from self worker task agent k result :
  ∀ n,
  TaskCoordinator.agents self !! WorkflowTask.agent_id task = Some agent →
  (∀ j r, (j < k)%nat → worker (n + j)%nat ≠ Returns r) →
  worker (n + k)%nat = Returns result →
  WorkflowTask.retry_count task + Z.of_nat k ≤ WorkflowTask.max_retries task →
  _execute_single_task self worker n task
  = mk_single_run
      (TaskCoordinator.set_task_history
         (TaskCoordinator.task_history self ++ [result]) self)
      (WorkflowTask.mk (WorkflowTask.task_id task) (WorkflowTask.task_type task)
         (WorkflowTask.agent_id task) (WorkflowTask.data task)
         (WorkflowTask.dependencies task) (WorkflowTask.priority task)
         (WorkflowTask.timeout task)
         (WorkflowTask.retry_count task + Z.of_nat k)
         (WorkflowTask.max_retries task) "completed" (Some result))
      (inr result) (S (n + k)).
Proof.
  revert task. induction k as [|k IH]; intros task n Hagent Hfail Hok Hbudget.
  - rewrite Nat.add_0_r in *. rewrite execute_single_task_unfold, Hagent, Hok.
    unfold WorkflowTask.set_status, WorkflowTask.set_result. simpl.
    by rewrite Z.add_0_r.
  - rewrite execute_single_task_unfold, Hagent.
    pose proof (Hfail 0%nat) as H0. rewrite Nat.add_0_r in H0.
    destruct (worker n) as [r| |e]; [by destruct (H0 r ltac:(lia))| |];
      (rewrite bool_decide_eq_true_2 by lia);
      (rewrite (IH _ (S n)); simpl;
       [ f_equal; [f_equal; lia | lia]
       | done
       | intros j r Hj; replace (S (n + j)) with (n + S j)%nat by lia;
         apply Hfail; lia
       | by replace (S (n + k)) with (n + S k)%nat by lia
       | lia ]).
Qed.

(** X8: when the first [k] attempts of a task time out or raise and the
    next one returns, with [retry_count + k <= max_retries], the call
    makes [k + 1] attempts and returns that result: the task is
    "completed" with [retry_count] raised by [k] and the result stored,
    and exactly that result is appended to the [task_history] of the
    coordinator. *)
Theorem success_after_failures (self : TaskCoordinator.t) (worker : nat → attempt)
    (task : WorkflowTask.t) (agent : BaseAgent.t) (k : nat) (result : TaskResult.t)
    (Hagent : TaskCoordinator.agents self !! WorkflowTask.agent_id task = Some agent)
    (Hfail : ∀ j r, (j < k)%nat → worker j ≠ Returns r)
    (Hok : worker k = Returns result)
    (Hbudget : WorkflowTask.retry_count task + Z.of_nat k
               ≤ WorkflowTask.max_retries task) :
  run_attempts (_execute_single_task self worker 0 task) = S k
  ∧ run_outcome (_execute_single_task self worker 0 task) = inr result
  ∧ run_task (_execute_single_task self worker 0 task)
    = WorkflowTask.mk (WorkflowTask.task_id task) (WorkflowTask.task_type task)
        (WorkflowTask.agent_id task) (WorkflowTask.data task)
        (WorkflowTask.dependencies task) (WorkflowTask.priority task)
        (WorkflowTask.timeout task)
        (WorkflowTask.retry_count task + Z.of_nat k)
        (WorkflowTask.max_retries task) "completed" (Some result)
  ∧ TaskCoordinator.task_history
      (run_self (_execute_single_task self worker 0 task))
    = (TaskCoordinator.task_history self ++ [result])%list.
Proof.
  by rewrite (success_after_failures_from self worker task agent k result 0).
Qed.

Lemma success_after_failures_witness :
  run_attempts
    (_execute_single_task (coordinator_with []) fails_twice 0 (task_for "t1" [] 3))
  = 3%nat
  ∧ run_outcome
      (_execute_single_task (coordinator_with []) fails_twice 0 (task_for "t1" [] 3))
    = inr (report_of "t1")
  ∧ run_task
      (_execute_single_task (coordinator_with []) fails_twice 0 (task_for "t1" [] 3))
    = WorkflowTask.mk "t1" "research_topic" "researcher_001" "" [] 1 300
        (0 + Z.of_nat 2) 3 "completed" (Some (report_of "t1"))
  ∧ TaskCoordinator.task_history
      (run_self
         (_execute_single_task (coordinator_with []) fails_twice 0
            (task_for "t1" [] 3)))
    = (TaskCoordinator.task_history (coordinator_with []) ++ [report_of "t1"])%list.
Proof.
  apply (success_after_failures (coordinator_with []) fails_twice
           (task_for "t1" [] 3) researcher 2 (report_of "t1")).
  - reflexivity.
  - intros j r Hj. destruct j as [|[|j]]; [discriminate|discriminate|lia].
  - reflexivity.
  - simpl. lia.
Defined.

(** ** Tasks that have run *)

Lemma execute_single_task_agent_id self worker n task :
  WorkflowTask.agent_id (run_task (_execute_single_task self worker n task))
  = WorkflowTask.agent_id task.
Proof.
  remember (Z.to_nat (WorkflowTask.max_retries task - WorkflowTask.retry_count task))
    as k eqn:Hk.
  revert n task Hk. induction k as [k IH] using lt_wf_ind. intros n task Hk.
  rewrite execute_single_task_unfold.
  destruct (TaskCoordinator.agents self !! WorkflowTask.agent_id task); [|done].
  destruct (worker n); [done| |]; case_bool_decide; try done.
  - erewrite IH; [done| |done]. simpl. lia.
  - erewrite IH; [done| |done]. simpl. lia.
Qed.

Lemma execute_single_task_settled self worker n task :
  is_Some (TaskCoordinator.agents self !! WorkflowTask.agent_id task) →
  settled (run_task (_execute_single_task self worker n task)).
Proof.
  remember (Z.to_nat (WorkflowTask.max_retries task - WorkflowTask.retry_count task))
    as k eqn:Hk.
  revert n task Hk. induction k as [k IH] using lt_wf_ind. intros n task Hk [a Ha].
  rewrite execute_single_task_unfold, Ha.
  destruct (worker n); [by split; [left|eexists]| |]; case_bool_decide.
  - eapply IH; [|done|by eexists]. simpl. lia.
  - by split; [right|eexists].
  - eapply IH; [|done|by eexists]. simpl. lia.
  - by split; [right|eexists].
Qed.

Lemma history_extended_agents self self' :
  history_extended self self' →
  TaskCoordinator.agents self' = TaskCoordinator.agents self.
Proof. by intros [extra ->]. Qed.

Lemma start_task_run_invariant s r :
  run_invariant s →
  ids s !! r.1 = Some (WorkflowTask.task_id r.2) →
  WorkflowTask.task_id r.2 ∉ completed_tasks s →
  run_invariant (start_task s r).
Proof.
  intros [] Hindex Hnot.
  pose proof (start_task_ids s r) as Hids.
  constructor; rewrite ?Hids; try done.
  - intros i task Hi. simpl in *.
    destruct (decide (i = r.1)) as [->|Hne].
    + rewrite list_lookup_alter_eq in Hi.
      destruct (Workflow.tasks (sched_workflow s) !! r.1) as [t|] eqn:Ht; [|done].
      simpl in Hi. injection Hi as <-. exact (ri_agents0 r.1 t Ht).
    + rewrite list_lookup_alter_ne in Hi by done. by apply (ri_agents0 i).
  - by apply start_task_apart.
  - intros k h Hk. simpl in Hk. apply lookup_insert_Some in Hk as [[<- <-]|[_ Hk]].
    + by exists r.1.
    + by apply ri_running0.
  - intros i task Hi Hc. simpl in *.
    destruct (decide (i = r.1)) as [->|Hne].
    + rewrite list_lookup_alter_eq in Hi.
      destruct (Workflow.tasks (sched_workflow s) !! r.1) as [t|] eqn:Ht; [|done].
      simpl in Hi. injection Hi as <-. simpl in Hc. exfalso. apply Hnot.
      unfold ids in Hindex. rewrite list_lookup_fmap, Ht in Hindex.
      injection Hindex as <-. done.
    + rewrite list_lookup_alter_ne in Hi by done. by apply (ri_settled0 i).
Qed.

Lemma start_tasks_run_invariant s l :
  run_invariant s →
  (∀ r, r ∈ l → ids s !! r.1 = Some (WorkflowTask.task_id r.2)
               ∧ WorkflowTask.task_id r.2 ∉ completed_tasks s) →
  run_invariant (start_tasks s l).
Proof.
  revert s. induction l as [|r l IH]; intros s Hinv Hl; [done|].
  simpl. apply IH.
  - destruct (Hl r) as [H1 H2]; [by left|]. by apply start_task_run_invariant.
  - intros r' Hr'. rewrite start_task_ids. simpl. apply Hl. by right.
Qed.

Lemma tasks_to_start_index s r :
  r ∈ tasks_to_start s →
  ids s !! r.1 = Some (WorkflowTask.task_id r.2)
  ∧ WorkflowTask.task_id r.2 ∉ completed_tasks s.
Proof.
  intros Hin. split; [|by apply tasks_to_start_not_completed].
  apply elem_of_slice_to in Hin. destruct r as [i task].
  apply elem_of_get_ready_tasks in Hin as [Hi _].
  unfold ids. simpl. by rewrite list_lookup_fmap, Hi.
Qed.

Lemma handle_done_run_invariant workers s x :
  run_invariant s → run_invariant (handle_done workers s x).
Proof.
  intros Hinv. unfold handle_done.
  destruct (running_tasks s !! x) as [h|] eqn:Hh; [|done].
  destruct Hinv.
  destruct (ri_running0 x h Hh) as (i & -> & Hix).
  assert (x ≠ "") as Hne.
  { intros ->. apply ri_nonempty0. by eapply list_elem_of_lookup_2. }
  rewrite bool_decide_eq_true_2 by done.
  unfold ids in Hix. rewrite list_lookup_fmap in Hix.
  destruct (Workflow.tasks (sched_workflow s) !! i) as [t|] eqn:Ht; [|done].
  injection Hix as Hid.
  pose proof (run_coroutine_ids workers s i) as Hids.
  unfold run_coroutine in *. rewrite Ht in *.
  set (run := _execute_single_task (sched_self s) (workers (WorkflowTask.task_id t))
                0 t) in *.
  assert (WorkflowTask.task_id
            <$> <[i:=run_task run]> (Workflow.tasks (sched_workflow s))
          = ids s) as Hids' by exact Hids.
  assert (TaskCoordinator.agents (run_self run)
          = TaskCoordinator.agents (sched_self s)) as Hagents
    by apply history_extended_agents, execute_single_task_history.
  constructor;
    repeat match goal with
           | |- context [ids (mk_sched ?a ?b ?c ?d ?e)] =>
               change (ids (mk_sched a b c d e))
                 with (WorkflowTask.task_id <$> Workflow.tasks b)
           end;
    simpl; rewrite ?Hids'; try done.
  - intros j task Hj. rewrite Hagents.
    apply list_lookup_insert_Some in Hj as [(Heq & <- & _)|[Hne' Hj]].
    + unfold run. rewrite execute_single_task_agent_id. by apply (ri_agents0 i).
    + by apply (ri_agents0 j).
  - unfold apart. simpl. rewrite dom_delete_L. intros y Hy Hc.
    apply elem_of_difference in Hy as [Hy Hnot].
    apply elem_of_union in Hc as [Hc|Hc]; [by apply (ri_apart0 y)|done].
  - intros k h Hk. apply lookup_delete_Some in Hk as [_ Hk]. by apply ri_running0.
  - apply union_subseteq. split; [done|]. apply singleton_subseteq_l.
    apply elem_of_list_to_set. unfold ids.
    apply list_elem_of_fmap. exists t. split; [done|].
    by eapply list_elem_of_lookup_2.
  - intros j task Hj Hc.
    apply list_lookup_insert_Some in Hj as [(Heq & <- & _)|[Hne' Hj]].
    + apply execute_single_task_settled. by apply (ri_agents0 i).
    + apply elem_of_union in Hc as [Hc|Hc]; [by apply (ri_settled0 j)|].
      apply elem_of_singleton in Hc. exfalso. apply Hne'.
      apply (NoDup_lookup (ids s) i j x); [done| |]; unfold ids;
        rewrite list_lookup_fmap.
      * rewrite Ht. simpl. by rewrite Hid.
      * rewrite Hj. simpl. by rewrite Hc.
Qed.

Lemma after_turn_run_invariant workers hint s :
  run_invariant s → run_invariant (after_turn workers hint s).
Proof.
  intros Hinv.
  assert (run_invariant (await_and_collect workers hint
                           (start_tasks s (tasks_to_start s)))) as Hs2.
  { unfold await_and_collect. 
    assert (run_invariant (start_tasks s (tasks_to_start s))) as Hs1
      by (apply start_tasks_run_invariant; [done|apply tasks_to_start_index]).
    case_decide; [done|].
    generalize (elements (wait_first_completed
                            (running_tasks (start_tasks s (tasks_to_start s))) hint)).
    revert Hs1. generalize (start_tasks s (tasks_to_start s)). intros s1 Hs1 l.
    revert s1 Hs1. induction l as [|x l IH]; intros s1 Hs1; [done|].
    simpl. by apply IH, handle_done_run_invariant. }
  unfold after_turn, loop_body.
  destruct (bool_decide (ready_of s = []) && _); [|done].
  by destruct (remaining_tasks _ _).
Qed.

Lemma turns_run_invariant workers hints s k s' :
  turns workers hints s k s' → run_invariant s → run_invariant s'.
Proof.
  induction 1 as [|hints s s1 k s2 Hcond Hbody _ IH]; intros Hinv; [done|].
  apply IH. pose proof (after_turn_run_invariant workers (hd [] hints) s Hinv) as H.
  unfold after_turn in H. by rewrite Hbody in H.
Qed.

Lemma initial_run_invariant self workflow :
  NoDup (WorkflowTask.task_id <$> Workflow.tasks workflow) →
  (∀ task, task ∈ Workflow.tasks workflow → WorkflowTask.task_id task ≠ "") →
  (∀ task, task ∈ Workflow.tasks workflow →
     is_Some (TaskCoordinator.agents self !! WorkflowTask.agent_id task)) →
  run_invariant (initial self workflow).
Proof.
  intros Hnodup Hne Hagents. constructor; simpl; try done.
  - intros Hin. apply list_elem_of_fmap in Hin as (task & Heq & Hin).
    by apply (Hne task).
  - intros i task Hi. apply Hagents. by eapply list_elem_of_lookup_2.
Qed.

(** X9: in a run over a workflow whose task ids are distinct and not
    empty and whose agents are all registered, a task is started only
    when each of its dependencies names a task of the workflow whose
    coroutine has run to its end (the task is "completed" or "failed" and
    holds a result). *)
Theorem dependencies_have_run (workers : string → nat → attempt)
    (hints : list (list string)) (self : TaskCoordinator.t)
    (workflow : Workflow.t) (k : nat) (s : sched) (r : task_ref) (dep : string)
    (Hnodup : NoDup (WorkflowTask.task_id <$> Workflow.tasks workflow))
    (Hne : ∀ task, task ∈ Workflow.tasks workflow → WorkflowTask.task_id task ≠ "")
    (Hagents : ∀ task, task ∈ Workflow.tasks workflow →
                 is_Some (TaskCoordinator.agents self !! WorkflowTask.agent_id task))
    (Hturns : turns workers hints (initial self workflow) k s)
    (Hstart : r ∈ tasks_to_start s)
    (Hdep : dep ∈ WorkflowTask.dependencies r.2) :
  ∃ task,
    task ∈ Workflow.tasks (sched_workflow s)
    ∧ WorkflowTask.task_id task = dep
    ∧ settled task.
Proof.
  assert (run_invariant s) as Hinv
    by (eapply turns_run_invariant; [done|by apply initial_run_invariant]).
  apply elem_of_slice_to in Hstart. destruct r as [i t].
  apply elem_of_get_ready_tasks in Hstart as [_ Hsel].
  apply selected_spec in Hsel as (_ & _ & _ & _ & Hdeps).
  specialize (Hdeps dep Hdep).
  pose proof (ri_completed _ Hinv dep Hdeps) as Hin.
  apply elem_of_list_to_set, list_elem_of_fmap in Hin as (task & -> & Hin).
  exists task. split; [done|]. split; [done|].
  apply list_elem_of_lookup in Hin as [j Hj]. by apply (ri_settled _ Hinv j).
Qed.

Lemma dependencies_have_run_witness :
  ∃ task,
    task ∈ Workflow.tasks
             (sched_workflow
                (after_turn succeeds_always []
                   (initial (coordinator_with two_tasks) two_tasks_workflow)))
    ∧ WorkflowTask.task_id task = "t1"
    ∧ settled task.
Proof.
  apply (dependencies_have_run succeeds_always [] (coordinator_with two_tasks)
           two_tasks_workflow 1
           (after_turn succeeds_always []
              (initial (coordinator_with two_tasks) two_tasks_workflow))
           (1%nat, task_for "t2" ["t1"] 3) "t1").
  - vm_compute. repeat constructor; intros H; inversion H; subst;
      try discriminate; match goal with H' : _ ∈ [] |- _ => inversion H' end.
  - intros task Htask. apply elem_of_cons in Htask as [->|Htask]; [discriminate|].
    apply list_elem_of_singleton in Htask as ->. discriminate.
  - intros task Htask. exists researcher.
    apply elem_of_cons in Htask as [->|Htask]; [reflexivity|].
    apply list_elem_of_singleton in Htask as ->. reflexivity.
  - apply (turns_S succeeds_always [] _
             (after_turn succeeds_always []
                (initial (coordinator_with two_tasks) two_tasks_workflow)));
      [vm_compute; lia | vm_compute; reflexivity | constructor].
  - vm_compute. apply list_elem_of_here.
  - left.
Defined.

Lemma loop_body_break workers hint s s' :
  loop_body workers hint s = Break s' →
  s' = after_turn workers hint s
  ∧ remaining_tasks (sched_workflow s') (completed_tasks s') = [].
Proof.
  intros Hbody. unfold after_turn. rewrite Hbody. split; [done|].
  unfold loop_body in Hbody.
  destruct (bool_decide (ready_of s = []) && _); [|done].
  destruct (remaining_tasks _ _) eqn:Hrem; [|done].
  by injection Hbody as <-.
Qed.

Lemma while_loop_returned workers fuel hints s s' :
  run_invariant s →
  while_loop fuel workers hints s = Returned s' →
  run_invariant s'
  ∧ ∀ task, task ∈ Workflow.tasks (sched_workflow s') →
            WorkflowTask.task_id task ∈ completed_tasks s'.
Proof.
  revert hints s. induction fuel as [|fuel IH]; intros hints s Hinv Hloop;
    simpl in Hloop;
    destruct (Nat.ltb_spec (size (completed_tasks s))
                (length (Workflow.tasks (sched_workflow s)))) as [Hlt|Hge];
    try done.
  1,3: injection Hloop as <-; split; [done|]; intros task Htask;
    assert (completed_tasks s = list_to_set (ids s)) as ->
      by (apply set_subseteq_size_eq; [apply Hinv|];
          rewrite size_list_to_set by apply Hinv;
          unfold ids; by rewrite length_fmap);
    apply elem_of_list_to_set; unfold ids; by apply list_elem_of_fmap_2.
  pose proof (after_turn_run_invariant workers (hd [] hints) s Hinv) as Hturn.
  destruct (loop_body workers (hd [] hints) s) as [s1|s1|e s1] eqn:Hbody; [| |done].
  - unfold after_turn in Hturn. rewrite Hbody in Hturn. by apply (IH (tl hints) s1).
  - injection Hloop as <-.
    apply loop_body_break in Hbody as [-> Hrem]. split; [done|].
    intros task Htask.
    destruct (decide (WorkflowTask.task_id task
                      ∈ completed_tasks (after_turn workers (hd [] hints) s)))
      as [|Hnot]; [done|].
    exfalso. by eapply (filter_nil_not_elem_of _ _ task); [apply Hrem| |].
Qed.

(** X10: when [execute_workflow] returns for a workflow whose task ids are
    distinct and not empty and whose agents are all registered, the
    workflow is COMPLETED, holds the same task ids in the same order, and
    every task has run: each is "completed" or "failed" and holds a
    result.  A task left "failed" does not keep the workflow from being
    returned COMPLETED. *)
Theorem returned_workflow_tasks_have_run (workers : string → nat → attempt)
    (hints : list (list string)) (fuel : nat) (self : TaskCoordinator.t)
    (workflow_id : string) (workflow workflow' : Workflow.t)
    (Hworkflow : TaskCoordinator.workflows self !! workflow_id = Some workflow)
    (Hnodup : NoDup (WorkflowTask.task_id <$> Workflow.tasks workflow))
    (Hne : ∀ task, task ∈ Workflow.tasks workflow → WorkflowTask.task_id task ≠ "")
    (Hagents : ∀ task, task ∈ Workflow.tasks workflow →
                 is_Some (TaskCoordinator.agents self !! WorkflowTask.agent_id task))
    (Hreturned : exec_outcome (execute_workflow fuel workers hints self workflow_id)
                 = Some (inr workflow')) :
  Workflow.status workflow' = COMPLETED
  ∧ WorkflowTask.task_id <$> Workflow.tasks workflow'
    = WorkflowTask.task_id <$> Workflow.tasks workflow
  ∧ ∀ task, task ∈ Workflow.tasks workflow' → settled task.
Proof.
  unfold execute_workflow, _execute_workflow_tasks in Hreturned.
  rewrite Hworkflow in Hreturned.
  set (s0 := initial self (Workflow.set_status RUNNING workflow)) in *.
  pose proof (while_loop_invariant workers s0 fuel hints s0
                (initial_invariant _ _)) as Hinv.
  destruct (while_loop fuel workers hints s0) as [s|e s|s] eqn:Hloop; [|done..].
  simpl in Hreturned. injection Hreturned as <-. simpl.
  apply while_loop_returned in Hloop as [Hrun Hall];
    [|by apply initial_run_invariant].
  split; [done|]. split; [exact (inv_ids _ _ Hinv)|].
  intros task Htask. apply list_elem_of_lookup in Htask as [i Hi].
  apply (ri_settled _ Hrun i task Hi), Hall. by eapply list_elem_of_lookup_2.
Qed.

Lemma returned_workflow_tasks_have_run_witness :
  Workflow.status returned_two_tasks = COMPLETED
  ∧ WorkflowTask.task_id <$> Workflow.tasks returned_two_tasks
    = WorkflowTask.task_id <$> Workflow.tasks two_tasks_workflow
  ∧ ∀ task, task ∈ Workflow.tasks returned_two_tasks → settled task.
Proof.
  apply (returned_workflow_tasks_have_run t1_times_out [] 3
           (coordinator_with two_tasks) "wf" two_tasks_workflow returned_two_tasks).
  - reflexivity.
  - vm_compute. repeat constructor; intros H; inversion H; subst;
      try discriminate; match goal with H' : _ ∈ [] |- _ => inversion H' end.
  - intros task Htask. apply elem_of_cons in Htask as [->|Htask]; [discriminate|].
    apply list_elem_of_singleton in Htask as ->. discriminate.
  - intros task Htask. exists researcher.
    apply elem_of_cons in Htask as [->|Htask]; [reflexivity|].
    apply list_elem_of_singleton in Htask as ->. reflexivity.
  - vm_compute. reflexivity.
Defined.

(** X11: with at least one slot and no empty task id, [execute_workflow]
    ends within one turn more than the workflow has tasks, whatever the
    workers and the event loop do; it either returns the workflow
    COMPLETED or raises the dead-end exception, and lets no other
    exception out. *)
Theorem execute_workflow_ends_completed_or_dead_end
    (workers : string → nat → attempt) (hints : list (list string)) (fuel : nat)
    (self : TaskCoordinator.t) (workflow_id : string) (workflow : Workflow.t)
    (Hworkflow : TaskCoordinator.workflows self !! workflow_id = Some workflow)
    (Hslots : 1 ≤ TaskCoordinator.max_concurrent_tasks self)
    (Hne : ∀ task, task ∈ Workflow.tasks workflow → WorkflowTask.task_id task ≠ "")
    (Hfuel : (length (Workflow.tasks workflow) < fuel)%nat) :
  (∃ workflow',
     exec_outcome (execute_workflow fuel workers hints self workflow_id)
     = Some (inr workflow')
     ∧ Workflow.status workflow' = COMPLETED)
  ∨ (∃ unresolved,
       exec_outcome (execute_workflow fuel workers hints self workflow_id)
       = Some (inl (PyException (UnresolvedDepsMsg unresolved)))).
Proof.
  pose proof (execute_workflow_ends workers hints fuel self workflow_id workflow
                Hworkflow Hslots Hne Hfuel) as Hends.
  unfold execute_workflow, _execute_workflow_tasks in *. rewrite Hworkflow in *.
  set (s0 := initial self (Workflow.set_status RUNNING workflow)) in *.
  pose proof (while_loop_invariant workers s0 fuel hints s0
                (initial_invariant _ _)) as Hinv.
  destruct (while_loop fuel workers hints s0) as [s|e s|s]; simpl in *.
  - left. by eexists.
  - right. destruct Hinv as (_ & _ & ->). by eexists.
  - by destruct Hends.
Qed.

Lemma execute_workflow_ends_witness :
  (∃ workflow',
     exec_outcome (execute_workflow 3 t1_times_out [] (coordinator_with two_tasks) "wf")
     = Some (inr workflow')
     ∧ Workflow.status workflow' = COMPLETED)
  ∨ (∃ unresolved,
       exec_outcome
         (execute_workflow 3 t1_times_out [] (coordinator_with two_tasks) "wf")
       = Some (inl (PyException (UnresolvedDepsMsg unresolved)))).
Proof.
  apply (execute_workflow_ends_completed_or_dead_end t1_times_out [] 3
           (coordinator_with two_tasks) "wf" two_tasks_workflow).
  - reflexivity.
  - simpl. lia.
  - intros task Htask. apply elem_of_cons in Htask as [->|Htask]; [discriminate|].
    apply list_elem_of_singleton in Htask as ->. discriminate.
  - simpl. lia.
Defined.

(** ** Broadcasting *)

Lemma broadcast_message_from (l : list string) (sender_id content message_type : string)
    (exclude_agents : option (list string)) :
  ∀ self,
  NoDup l →
  (∀ k, k ∈ l → is_Some (TaskCoordinator.agents self !! k)) →
  ∃ self',
    broadcast_message l self sender_id content message_type exclude_agents
    = (inr tt, self')
    ∧ TaskCoordinator.message_queue self'
      = (TaskCoordinator.message_queue self
         ++ (broadcast_to sender_id content message_type
             <$> filter (reached sender_id exclude_agents) l))%list
    ∧ (∀ k,
         TaskCoordinator.agents self' !! k
         = (λ agent,
              if decide (k ∈ l ∧ reached sender_id exclude_agents k)
              then BaseAgent.add_message
                     (broadcast_to sender_id content message_type k) agent
              else agent)
           <$> TaskCoordinator.agents self !! k)
    ∧ TaskCoordinator.workflows self' = TaskCoordinator.workflows self
    ∧ TaskCoordinator.task_history self' = TaskCoordinator.task_history self.
Proof.
  unfold broadcast_message.
  induction l as [|k0 l IH]; intros self Hnodup Hreg.
  - exists self. simpl. rewrite app_nil_r. repeat split; try done.
    intros k. by destruct (TaskCoordinator.agents self !! k).
  - apply NoDup_cons in Hnodup as [Hk0 Hnodup].
    destruct (Hreg k0) as [a0 Ha0]; [by left|].
    simpl. destruct (decide (reached sender_id exclude_agents k0)) as [Hr|Hr].
    + assert (bool_decide (k0 ≠ sender_id)
              && bool_decide (k0 ∉ default [] exclude_agents) = true) as ->.
      { destruct Hr. by rewrite !bool_decide_eq_true_2. }
      unfold send_message at 2. rewrite Ha0.
      match goal with
      | |- context [foldl _ (inr tt, ?c) l] => destruct (IH c) as (self' & Hrun & Hq & Ha & Hw & Hh)
      end; [done| |].
      { intros k Hk. simpl. destruct (decide (k = k0)) as [->|Hne].
        - rewrite lookup_insert_eq. by eexists.
        - rewrite lookup_insert_ne by done. apply Hreg. by right. }
      exists self'. rewrite Hrun, Hq, Hw, Hh. simpl.
      rewrite filter_cons_True by done. rewrite fmap_cons, <-app_assoc. simpl.
      repeat split; try done.
      intros k. rewrite Ha. simpl. destruct (decide (k = k0)) as [->|Hne].
      * rewrite lookup_insert_eq, Ha0. simpl.
        rewrite decide_False by (by intros [? _]).
        rewrite decide_True; [done|]. split; [left|done].
      * rewrite lookup_insert_ne by done.
        destruct (TaskCoordinator.agents self !! k); simpl; [|done].
        destruct (decide (k ∈ l ∧ reached sender_id exclude_agents k)) as [[H1 H2]|Hn].
        -- rewrite decide_True; [done|]. split; [by right|done].
        -- rewrite decide_False; [done|]. intros [H1 H2]. apply Hn. split; [|done].
           by apply elem_of_cons in H1 as [->|H1].
    + assert (bool_decide (k0 ≠ sender_id)
              && bool_decide (k0 ∉ default [] exclude_agents) = false) as ->.
      { apply andb_false_iff. unfold reached in Hr.
        destruct (decide (k0 ≠ sender_id)); [right|left];
          apply bool_decide_eq_false; tauto. }
      destruct (IH self) as (self' & Hrun & Hq & Ha & Hw & Hh); [done| |].
      { intros k Hk. apply Hreg. by right. }
      exists self'. rewrite Hrun, Hq, Hw, Hh.
      rewrite filter_cons_False by done.
      repeat split; try done.
      intros k. rewrite Ha.
      destruct (TaskCoordinator.agents self !! k); simpl; [|done].
      destruct (decide (k ∈ l ∧ reached sender_id exclude_agents k)) as [[H1 H2]|Hn].
      * rewrite decide_True; [done|]. split; [by right|done].
      * rewrite decide_False; [done|]. intros [H1 H2].
        apply elem_of_cons in H1 as [->|H1]; [done|]. by apply Hn.
Qed.

(** X12: [broadcast_message] raises nothing and reaches every registered
    agent but the sender and the excluded ones, each exactly once: the
    inbox of each agent reached gets the message (addressed to that agent)
    appended, every other agent is unchanged, no agent is added or
    removed, and the message queue gets one message per agent reached, in
    the order in which the agents are iterated. *)
Theorem broadcast_message_spec (agent_ids : list string) (self : TaskCoordinator.t)
    (sender_id content message_type : string)
    (exclude_agents : option (list string))
    (Hdistinct : NoDup agent_ids)
    (Hkeys : ∀ k, k ∈ agent_ids ↔ is_Some (TaskCoordinator.agents self !! k)) :
  ∃ self',
    broadcast_message agent_ids self sender_id content message_type exclude_agents
    = (inr tt, self')
    ∧ TaskCoordinator.message_queue self'
      = (TaskCoordinator.message_queue self
         ++ (broadcast_to sender_id content message_type
             <$> filter (reached sender_id exclude_agents) agent_ids))%list
    ∧ (∀ k agent,
         TaskCoordinator.agents self !! k = Some agent →
         TaskCoordinator.agents self' !! k
         = Some (if decide (reached sender_id exclude_agents k)
                 then BaseAgent.add_message
                        (broadcast_to sender_id content message_type k) agent
                 else agent))
    ∧ (∀ k, TaskCoordinator.agents self !! k = None →
            TaskCoordinator.agents self' !! k = None)
    ∧ TaskCoordinator.workflows self' = TaskCoordinator.workflows self
    ∧ TaskCoordinator.task_history self' = TaskCoordinator.task_history self.
Proof.
  destruct (broadcast_message_from agent_ids sender_id content message_type
              exclude_agents self Hdistinct)
    as (self' & Hrun & Hq & Ha & Hw & Hh).
  { intros k Hk. by apply Hkeys. }
  exists self'. repeat split; try done.
  - intros k agent Hk. rewrite Ha, Hk. simpl.
    assert (k ∈ agent_ids) as Hin by (apply Hkeys; by eexists).
    destruct (decide (reached sender_id exclude_agents k)).
    + by rewrite decide_True.
    + rewrite decide_False; [done|]. by intros [_ ?].
  - intros k Hk. by rewrite Ha, Hk.
Qed.

Lemma broadcast_message_witness :
  ∃ self',
    broadcast_message ["planner_001"; "researcher_001"] two_agents
      "planner_001" "hello" "broadcast" None
    = (inr tt, self')
    ∧ TaskCoordinator.message_queue self'
      = (TaskCoordinator.message_queue two_agents
         ++ (broadcast_to "planner_001" "hello" "broadcast"
             <$> filter (reached "planner_001" None)
                   ["planner_001"; "researcher_001"]))%list
    ∧ (∀ k agent,
         TaskCoordinator.agents two_agents !! k = Some agent →
         TaskCoordinator.agents self' !! k
         = Some (if decide (reached "planner_001" None k)
                 then BaseAgent.add_message
                        (broadcast_to "planner_001" "hello" "broadcast" k) agent
                 else agent))
    ∧ (∀ k, TaskCoordinator.agents two_agents !! k = None →
            TaskCoordinator.agents self' !! k = None)
    ∧ TaskCoordinator.workflows self' = TaskCoordinator.workflows two_agents
    ∧ TaskCoordinator.task_history self' = TaskCoordinator.task_history two_agents.
Proof.
  apply (broadcast_message_spec ["planner_001"; "researcher_001"] two_agents
           "planner_001" "hello" "broadcast" None).
  - repeat constructor; intros H; inversion H; subst; try discriminate;
      match goal with H' : _ ∈ [] |- _ => inversion H' end.
  - intros k. unfold two_agents, register_agent. simpl.
    rewrite !elem_of_cons, elem_of_nil. split.
    + intros [->|[->|[]]]; [|rewrite lookup_insert_ne by discriminate];
        rewrite lookup_insert_eq; by eexists.
    + intros [a Ha]. apply lookup_insert_Some in Ha as [[<- _]|[_ Ha]]; [by left|].
      apply lookup_insert_Some in Ha as [[<- _]|[_ Ha]]; [right; by left|].
      by rewrite lookup_empty in Ha.
Defined.

(** ** Status reports *)

Lemma count_status_cons st task tasks :
  count_status st (task :: tasks)
  = ((if decide (WorkflowTask.status task = st) then 1 else 0)
     + count_status st tasks)%nat.
Proof.
  unfold count_status. rewrite filter_cons.
  by destruct (decide (WorkflowTask.status task = st)).
Qed.

Lemma count_status_partition (tasks : list WorkflowTask.t) :
  (count_status "pending" tasks + count_status "running" tasks
   + count_status "completed" tasks + count_status "failed" tasks
   + length (filter (λ t, WorkflowTask.status t
                          ∉ ["pending"; "running"; "completed"; "failed"]) tasks)
   = length tasks)%nat.
Proof.
  induction tasks as [|task tasks IH]; [done|].
  rewrite !count_status_cons, filter_cons. simpl length.
  destruct (decide (WorkflowTask.status task
                    ∉ ["pending"; "running"; "completed"; "failed"])) as [Hout|Hin].
  - rewrite !elem_of_cons, elem_of_nil in Hout.
    repeat (destruct (decide _) as [?|?]; [tauto|]). simpl. lia.
  - apply dec_stable in Hin. rewrite !elem_of_cons, elem_of_nil in Hin.
    destruct Hin as [E|[E|[E|[E|[]]]]]; rewrite E;
      repeat (destruct (decide _) as [?|?]; try done); simpl; lia.
Qed.

(** X13: for a workflow that exists, [get_workflow_status] changes nothing
    and reports the number of tasks as [total]; the four counts by status
    never add up to more than [total], and they add up to [total] exactly
    when every task has one of the statuses "pending", "running",
    "completed" and "failed". *)
Theorem workflow_report_counts (self : TaskCoordinator.t) (workflow_id : string)
    (workflow : Workflow.t)
    (Hworkflow : TaskCoordinator.workflows self !! workflow_id = Some workflow) :
  ∃ report,
    get_workflow_status self workflow_id = (inr report, self)
    ∧ WorkflowReport.total report = length (Workflow.tasks workflow)
    ∧ (WorkflowReport.pending report + WorkflowReport.running report
       + WorkflowReport.completed report + WorkflowReport.failed report
       ≤ WorkflowReport.total report)%nat
    ∧ ((WorkflowReport.pending report + WorkflowReport.running report
        + WorkflowReport.completed report + WorkflowReport.failed report
        = WorkflowReport.total report)%nat
       ↔ ∀ task, task ∈ Workflow.tasks workflow →
           WorkflowTask.status task ∈ ["pending"; "running"; "completed"; "failed"]).
Proof.
  unfold get_workflow_status. rewrite Hworkflow. eexists. split; [done|]. simpl.
  pose proof (count_status_partition (Workflow.tasks workflow)) as Hsum.
  split; [done|]. split; [lia|]. split.
  - intros Heq task Htask.
    destruct (decide (WorkflowTask.status task
                      ∈ ["pending"; "running"; "completed"; "failed"]))
      as [|Hnot]; [done|].
    assert (task ∈ filter (λ t, WorkflowTask.status t
                                ∉ ["pending"; "running"; "completed"; "failed"])
                     (Workflow.tasks workflow)) as Hin
      by (by apply list_elem_of_filter).
    destruct (filter _ (Workflow.tasks workflow)) eqn:Hf;
      [by apply elem_of_nil in Hin|simpl in Hsum; lia].
  - intros Hall.
    assert (filter (λ t, WorkflowTask.status t
                         ∉ ["pending"; "running"; "completed"; "failed"])
              (Workflow.tasks workflow) = []) as Hnil.
    { destruct (filter _ (Workflow.tasks workflow)) as [|t l] eqn:Hf; [done|].
      assert (t ∈ t :: l) as Hin by left. rewrite <-Hf in Hin.
      apply list_elem_of_filter in Hin as [Hnot Hin]. by destruct (Hnot (Hall t Hin)). }
    rewrite Hnil in Hsum. simpl in Hsum. lia.
Qed.

Lemma workflow_report_counts_witness :
  ∃ report,
    get_workflow_status (coordinator_with two_tasks) "wf"
    = (inr report, coordinator_with two_tasks)
    ∧ WorkflowReport.total report = length (Workflow.tasks two_tasks_workflow)
    ∧ (WorkflowReport.pending report + WorkflowReport.running report
       + WorkflowReport.completed report + WorkflowReport.failed report
       ≤ WorkflowReport.total report)%nat
    ∧ ((WorkflowReport.pending report + WorkflowReport.running report
        + WorkflowReport.completed report + WorkflowReport.failed report
        = WorkflowReport.total report)%nat
       ↔ ∀ task, task ∈ Workflow.tasks two_tasks_workflow →
           WorkflowTask.status task ∈ ["pending"; "running"; "completed"; "failed"]).
Proof.
  apply (workflow_report_counts (coordinator_with two_tasks) "wf" two_tasks_workflow).
  reflexivity.
Defined.

Lemma size_filter_insert {A} (P : string * A → Prop) `{!∀ x, Decision (P x)}
    (m : gmap string A) (i : string) (x : A) :
  m !! i = None →
  size (filter P (<[i:=x]> m))
  = ((if decide (P (i, x)) then 1 else 0) + size (filter P m))%nat.
Proof.
  intros Hi. destruct (decide (P (i, x))) as [HP|HP].
  - rewrite map_filter_insert_True by done.
    rewrite map_size_insert_None; [done|]. by apply map_lookup_filter_None_2; left.
  - rewrite map_filter_insert_False by done.
    by rewrite delete_id by done.
Qed.

Lemma count_workflows_partition (workflows : gmap string Workflow.t) :
  (count_workflows IDLE workflows + count_workflows RUNNING workflows
   + count_workflows PAUSED workflows + count_workflows COMPLETED workflows
   + count_workflows FAILED workflows + count_workflows CANCELLED workflows
   = size workflows)%nat.
Proof.
  unfold count_workflows.
  induction workflows as [|i w m Hi IH] using map_ind.
  - by rewrite !map_filter_empty, !map_size_empty.
  - rewrite !size_filter_insert, map_size_insert_None by done. simpl.
    destruct (Workflow.status w);
      repeat (destruct (decide _) as [?|?]; try discriminate; try done);
      simpl; lia.
Qed.

Lemma count_agents_bound (agents : gmap string BaseAgent.t) :
  (count_agents "idle" agents + count_agents "working" agents
   + count_agents "error" agents ≤ size agents)%nat.
Proof.
  unfold count_agents.
  induction agents as [|i a m Hi IH] using map_ind.
  - by rewrite !map_filter_empty, !map_size_empty.
  - rewrite !size_filter_insert, map_size_insert_None by done. simpl.
    destruct (decide (BaseAgent.status a = "idle")) as [E|?];
      [rewrite E|];
      destruct (decide (_ = "working")) as [E'|?]; try discriminate;
      [|rewrite E'|];
      destruct (decide (_ = "error")) as [?|?]; try discriminate; simpl; lia.
Qed.

(** X14: in the report of [get_system_status] the six counts of workflows
    by status add up to the number of workflows, the counts of agents
    that are idle, working and in error add up to at most the number of
    agents, and the success rate lies between 0 and 100, being 0 for an
    empty [task_history] (no division by zero). *)
Theorem system_report_counts (self : TaskCoordinator.t) :
  (SystemReport.workflows_stats (get_system_status self) IDLE
   + SystemReport.workflows_stats (get_system_status self) RUNNING
   + SystemReport.workflows_stats (get_system_status self) PAUSED
   + SystemReport.workflows_stats (get_system_status self) COMPLETED
   + SystemReport.workflows_stats (get_system_status self) FAILED
   + SystemReport.workflows_stats (get_system_status self) CANCELLED
   = SystemReport.workflows_total (get_system_status self))%nat
  ∧ (SystemReport.agents_idle (get_system_status self)
     + SystemReport.agents_working (get_system_status self)
     + SystemReport.agents_error (get_system_status self)
     ≤ SystemReport.agents_total (get_system_status self))%nat
  ∧ (0 <= SystemReport.success_rate (get_system_status self))%Q
  ∧ (SystemReport.success_rate (get_system_status self) <= 100)%Q
  ∧ (SystemReport.total_executed (get_system_status self) = 0%nat →
     SystemReport.success_rate (get_system_status self) = 0%Q).
Proof.
  split; [apply count_workflows_partition|].
  split; [apply count_agents_bound|].
  unfold get_system_status. simpl.
  destruct (TaskCoordinator.task_history self) as [|r history] eqn:Hh;
    [repeat split; done|].
  pose proof (length_filter (λ t, TaskResult.status t = "success") (r :: history))
    as Hle.
  set (k := length (filter (λ t, TaskResult.status t = "success") (r :: history))) in *.
  simpl length in *.
  repeat split; [| |done];
    unfold Qle, Qdiv, Qmult, Qinv, inject_Z; simpl; lia.
Qed.

Lemma system_report_counts_witness :
  SystemReport.workflows_total (get_system_status (coordinator_with two_tasks)) = 1%nat
  ∧ (0 <= SystemReport.success_rate (get_system_status (coordinator_with two_tasks)))%Q.
Proof.
  pose proof (system_report_counts (coordinator_with two_tasks)) as (_ & _ & Hrate & _).
  split; [vm_compute; reflexivity|exact Hrate].
Defined.

(** ** Resetting the coordinator *)

Lemma count_agents_reset (st : string) (agents : gmap string BaseAgent.t) :
  count_agents st (BaseAgent_reset <$> agents)
  = if decide (st = "idle") then size agents else 0%nat.
Proof.
  unfold count_agents.
  induction agents as [|i a m Hi IH] using map_ind.
  - rewrite fmap_empty, map_filter_empty, map_size_empty. by destruct (decide _).
  - rewrite fmap_insert, size_filter_insert by (by rewrite lookup_fmap, Hi).
    rewrite IH, map_size_insert_None by done. simpl.
    destruct (decide ("idle" = st)), (decide (st = "idle")); congruence || lia.
Qed.

(** X15: after [reset_system] the same agent ids are registered, and
    [get_system_status] reports every agent as idle, no workflow, no
    executed task, a success rate of 0 and no message; running any
    workflow id then raises the ValueError of an unknown workflow.  The
    two settings of the coordinator are kept. *)
Theorem reset_system_report (self : TaskCoordinator.t) :
  dom (TaskCoordinator.agents (reset_system self)) = dom (TaskCoordinator.agents self)
  ∧ SystemReport.agents_total (get_system_status (reset_system self))
    = size (TaskCoordinator.agents self)
  ∧ SystemReport.agents_idle (get_system_status (reset_system self))
    = size (TaskCoordinator.agents self)
  ∧ SystemReport.agents_working (get_system_status (reset_system self)) = 0%nat
  ∧ SystemReport.agents_error (get_system_status (reset_system self)) = 0%nat
  ∧ SystemReport.workflows_total (get_system_status (reset_system self)) = 0%nat
  ∧ SystemReport.total_executed (get_system_status (reset_system self)) = 0%nat
  ∧ SystemReport.success_rate (get_system_status (reset_system self)) = 0%Q
  ∧ SystemReport.messages_total (get_system_status (reset_system self)) = 0%nat
  ∧ TaskCoordinator.max_concurrent_tasks (reset_system self)
    = TaskCoordinator.max_concurrent_tasks self
  ∧ TaskCoordinator.default_timeout (reset_system self)
    = TaskCoordinator.default_timeout self
  ∧ ∀ fuel workers hints workflow_id,
      exec_outcome (execute_workflow fuel workers hints (reset_system self) workflow_id)
      = Some (inl (ValueError ("工作流不存在: " +:+ workflow_id))).
Proof.
  unfold get_system_status, reset_system, clear_history. simpl.
  rewrite !count_agents_reset, dom_fmap_L, map_size_fmap. simpl.
  repeat split.
Qed.

(** ** The conversation context *)

Lemma length_omap_le {A B} (f : A → option B) (l : list A) :
  (length (omap f l) ≤ length l)%nat.
Proof.
  induction l as [|x l IH]; [done|]. csimpl. destruct (f x); simpl; lia.
Qed.

Lemma slice_from_neg {A} (l : list A) (k : Z) :
  0 < k → slice_from l (- k) = drop (length l - Z.to_nat k) l.
Proof.
  intros Hk. unfold slice_from.
  destruct (0 <=? - k) eqn:E; [apply Z.leb_le in E; lia|].
  f_equal. lia.
Qed.

Lemma get_conversation_context_eq (system_prompt : string) (self : BaseAgent.t)
    (max_messages : Z) :
  get_conversation_context system_prompt self max_messages
  = ("system", system_prompt)
    :: omap (context_of_message (BaseAgent.agent_id self))
         (slice_from (BaseAgent.message_history self) (- max_messages)).
Proof.
  unfold get_conversation_context.
  destruct (BaseAgent.message_history self) eqn:E; [|done].
  unfold slice_from. by destruct (0 <=? - max_messages); rewrite drop_nil.
Qed.

(** X16: for a positive [max_messages], [get_conversation_context] returns
    the system prompt followed by at most [max_messages] entries, no more
    than there are messages in the history; every entry is the content of
    a message of the history, as "user" when the agent is its receiver and
    as "assistant" when it is not the receiver but the sender. *)
Theorem conversation_context_bounded (system_prompt : string) (self : BaseAgent.t)
    (max_messages : Z) (Hmax : 0 < max_messages) :
  ∃ entries,
    get_conversation_context system_prompt self max_messages
    = ("system", system_prompt) :: entries
    ∧ Z.of_nat (length entries) <= max_messages
    ∧ (length entries ≤ length (BaseAgent.message_history self))%nat
    ∧ ∀ entry, entry ∈ entries →
        ∃ msg, msg ∈ BaseAgent.message_history self
          ∧ ((Message.receiver msg = BaseAgent.agent_id self
              ∧ entry = ("user", Message.content msg))
             ∨ (Message.receiver msg ≠ BaseAgent.agent_id self
                ∧ Message.sender msg = BaseAgent.agent_id self
                ∧ entry = ("assistant", Message.content msg))).
Proof.
  rewrite get_conversation_context_eq, slice_from_neg by done.
  eexists. split; [done|].
  pose proof (length_omap_le (context_of_message (BaseAgent.agent_id self))
                (drop (length (BaseAgent.message_history self) - Z.to_nat max_messages)
                   (BaseAgent.message_history self))) as Hle.
  rewrite length_drop in Hle.
  unfold context_entry in *.
  split; [lia|]. split; [lia|].
  intros entry Hentry. apply list_elem_of_omap in Hentry as (msg & Hmsg & Hctx).
  exists msg. split.
  { eapply subseteq_drop, Hmsg. }
  unfold context_of_message in Hctx.
  destruct (bool_decide_reflect (Message.receiver msg = BaseAgent.agent_id self));
    [left; split; [done|congruence]|].
  destruct (bool_decide_reflect (Message.sender msg = BaseAgent.agent_id self));
    [right; repeat split; [done..|congruence]|done].
Qed.

Lemma conversation_context_bounded_witness :
  ∃ entries,
    get_conversation_context "You are a researcher." talkative 2
    = ("system", "You are a researcher.") :: entries
    ∧ Z.of_nat (length entries) <= 2
    ∧ (length entries ≤ length (BaseAgent.message_history talkative))%nat
    ∧ ∀ entry, entry ∈ entries →
        ∃ msg, msg ∈ BaseAgent.message_history talkative
          ∧ ((Message.receiver msg = BaseAgent.agent_id talkative
              ∧ entry = ("user", Message.content msg))
             ∨ (Message.receiver msg ≠ BaseAgent.agent_id talkative
                ∧ Message.sender msg = BaseAgent.agent_id talkative
                ∧ entry = ("assistant", Message.content msg))).
Proof.
  apply (conversation_context_bounded "You are a researcher." talkative 2). lia.
Defined.

(** X17: [max_messages = 0] does not give an empty context: the slice
    [message_history[-0:]] is the whole history, so the context is the one
    returned for any bound that is at least the length of the history,
    built from every message. *)
Theorem conversation_context_zero_is_everything (system_prompt : string)
    (self : BaseAgent.t) (max_messages : Z)
    (Hmax : Z.of_nat (length (BaseAgent.message_history self)) <= max_messages) :
  get_conversation_context system_prompt self 0
  = get_conversation_context system_prompt self max_messages
  ∧ get_conversation_context system_prompt self 0
    = ("system", system_prompt)
      :: omap (context_of_message (BaseAgent.agent_id self))
           (BaseAgent.message_history self).
Proof.
  rewrite !get_conversation_context_eq.
  assert (slice_from (BaseAgent.message_history self) (- 0)
          = BaseAgent.message_history self) as H0 by done.
  rewrite H0. split; [|done]. do 2 f_equal.
  destruct (decide (max_messages = 0)) as [->|Hne]; [done|].
  rewrite slice_from_neg by lia.
  by replace (length (BaseAgent.message_history self) - Z.to_nat max_messages)%nat
    with 0%nat by lia.
Qed.

Lemma conversation_context_zero_witness :
  get_conversation_context "You are a researcher." talkative 0
  = get_conversation_context "You are a researcher." talkative 5
  ∧ get_conversation_context "You are a researcher." talkative 0
    = ("system", "You are a researcher.")
      :: omap (context_of_message (BaseAgent.agent_id talkative))
           (BaseAgent.message_history talkative).
Proof.
  apply (conversation_context_zero_is_everything "You are a researcher." talkative 5).
  simpl. lia.
Defined.

(** X18: a message sent with [send_message] to an agent registered under
    its own id is appended to the queue of the coordinator and is the last
    entry, with role "user", of the conversation context of the receiver,
    whatever positive bound is asked for. *)
Theorem sent_message_ends_receiver_context (self : TaskCoordinator.t)
    (sender_id receiver_id content message_type : string)
    (metadata : option (list (string * string)))
    (receiver_agent : BaseAgent.t) (system_prompt : string) (max_messages : Z)
    (Hreceiver : TaskCoordinator.agents self !! receiver_id = Some receiver_agent)
    (Hid : BaseAgent.agent_id receiver_agent = receiver_id)
    (Hmax : 0 < max_messages) :
  ∃ self' receiver_agent',
    send_message self sender_id receiver_id content message_type metadata
    = (inr tt, self')
    ∧ TaskCoordinator.agents self' !! receiver_id = Some receiver_agent'
    ∧ last (get_conversation_context system_prompt receiver_agent' max_messages)
      = Some ("user", content)
    ∧ (Message.content <$> last (TaskCoordinator.message_queue self')) = Some content.
Proof.
  unfold send_message. rewrite Hreceiver. do 2 eexists. split; [done|]. simpl.
  rewrite lookup_insert_eq. split; [done|]. split; [|by rewrite last_snoc].
  rewrite get_conversation_context_eq, slice_from_neg by done. simpl.
  rewrite length_app. simpl.
  rewrite drop_app_le by lia. rewrite omap_app. simpl.
  unfold context_of_message at 2. simpl.
  rewrite Hid, bool_decide_eq_true_2 by done. simpl.
  by rewrite app_comm_cons, last_snoc.
Qed.

Lemma sent_message_ends_receiver_context_witness :
  ∃ self' receiver_agent',
    send_message two_agents "planner_001" "researcher_001" "plan" "text" None
    = (inr tt, self')
    ∧ TaskCoordinator.agents self' !! "researcher_001" = Some receiver_agent'
    ∧ last (get_conversation_context "You are a researcher." receiver_agent' 5)
      = Some ("user", "plan")
    ∧ (Message.content <$> last (TaskCoordinator.message_queue self')) = Some "plan".
Proof.
  apply (sent_message_ends_receiver_context two_agents "planner_001" "researcher_001"
           "plan" "text" None researcher "You are a researcher." 5);
    [vm_compute; reflexivity|reflexivity|lia].
Defined.

(** ** Custom workflows *)

Lemma set_workflows_insert_insert (c : TaskCoordinator.t) (workflow_id : string)
    (w w' : Workflow.t) :
  TaskCoordinator.set_workflows
    (<[workflow_id := w']>
       (TaskCoordinator.workflows
          (TaskCoordinator.set_workflows
             (<[workflow_id := w]> (TaskCoordinator.workflows c)) c)))
    (TaskCoordinator.set_workflows
       (<[workflow_id := w]> (TaskCoordinator.workflows c)) c)
  = TaskCoordinator.set_workflows
      (<[workflow_id := w']> (TaskCoordinator.workflows c)) c.
Proof.
  unfold TaskCoordinator.set_workflows. simpl. by rewrite insert_insert_eq.
Qed.

Lemma custom_loop_stuck (workflow_id : string) (e : exn) (tasks : list TaskDef.t)
    (c : TaskCoordinator.t) :
  foldl (λ (acc : call unit) task_def,
           match acc.1 with
           | inl _ => acc
           | inr _ => add_custom_task workflow_id acc.2 task_def
           end) (inl e, c) tasks
  = (inl e, c).
Proof. by induction tasks. Qed.

Lemma add_custom_task_ok (workflow_id : string) (c : TaskCoordinator.t)
    (w : Workflow.t) (d : TaskDef.t) :
  TaskCoordinator.workflows c !! workflow_id = Some w →
  is_Some (TaskCoordinator.agents c !! TaskDef.agent_id d) →
  add_custom_task workflow_id c d
  = (inr tt,
     TaskCoordinator.set_workflows
       (<[workflow_id :=
            Workflow.set_tasks
              (Workflow.tasks w
               ++ [custom_task (TaskCoordinator.default_timeout c) workflow_id
                     (length (Workflow.tasks w)) d]) w]>
          (TaskCoordinator.workflows c)) c).
Proof.
  intros Hw [a Ha]. unfold add_custom_task, create_task, add_task_to_workflow.
  rewrite Hw, Ha. simpl. rewrite Hw. unfold custom_task, int_or.
  by destruct (TaskDef.timeout d).
Qed.

Lemma custom_loop_ok (workflow_id : string) (tasks : list TaskDef.t) :
  ∀ (c : TaskCoordinator.t) (w : Workflow.t),
    TaskCoordinator.workflows c !! workflow_id = Some w →
    (∀ d, d ∈ tasks → is_Some (TaskCoordinator.agents c !! TaskDef.agent_id d)) →
    foldl (λ (acc : call unit) task_def,
             match acc.1 with
             | inl _ => acc
             | inr _ => add_custom_task workflow_id acc.2 task_def
             end) (inr tt, c) tasks
    = (inr tt,
       TaskCoordinator.set_workflows
         (<[workflow_id :=
              Workflow.set_tasks
                (Workflow.tasks w
                 ++ imap (λ i, custom_task (TaskCoordinator.default_timeout c)
                                 workflow_id (length (Workflow.tasks w) + i))
                      tasks) w]>
            (TaskCoordinator.workflows c)) c).
Proof.
  induction tasks as [|d tasks IH]; intros c w Hw Hagents.
  - simpl. rewrite app_nil_r. f_equal.
    destruct c, w. unfold TaskCoordinator.set_workflows, Workflow.set_tasks.
    simpl in *. by rewrite insert_id.
  - simpl. rewrite (add_custom_task_ok workflow_id c w d Hw)
      by (apply Hagents; left).
    erewrite IH; [|by simpl; rewrite lookup_insert_eq|
                   by intros d' Hd'; simpl; apply Hagents; right].
    rewrite set_workflows_insert_insert. simpl.
    do 3 f_equal. destruct w. unfold Workflow.set_tasks. simpl. f_equal.
    rewrite <-app_assoc. simpl. rewrite Nat.add_0_r. do 2 f_equal.
    apply imap_ext. intros i d' _. simpl. rewrite length_app. simpl.
    f_equal. lia.
Qed.

Lemma add_custom_task_unknown_agent (workflow_id : string)
    (c : TaskCoordinator.t) (d : TaskDef.t) :
  TaskCoordinator.agents c !! TaskDef.agent_id d = None →
  add_custom_task workflow_id c d
  = (inl (ValueError ("Agent不存在: " +:+ TaskDef.agent_id d)), c).
Proof.
  intros Hd. unfold add_custom_task, create_task. by rewrite Hd.
Qed.

Lemma custom_loop_fails (workflow_id : string) (good : list TaskDef.t)
    (bad : TaskDef.t) (rest : list TaskDef.t) (c : TaskCoordinator.t)
    (w : Workflow.t) :
  TaskCoordinator.workflows c !! workflow_id = Some w →
  (∀ d, d ∈ good → is_Some (TaskCoordinator.agents c !! TaskDef.agent_id d)) →
  TaskCoordinator.agents c !! TaskDef.agent_id bad = None →
  foldl (λ (acc : call unit) task_def,
           match acc.1 with
           | inl _ => acc
           | inr _ => add_custom_task workflow_id acc.2 task_def
           end) (inr tt, c) (good ++ bad :: rest)
  = (inl (ValueError ("Agent不存在: " +:+ TaskDef.agent_id bad)),
     TaskCoordinator.set_workflows
       (<[workflow_id :=
            Workflow.set_tasks
              (Workflow.tasks w
               ++ imap (λ i, custom_task (TaskCoordinator.default_timeout c)
                               workflow_id (length (Workflow.tasks w) + i))
                    good) w]>
          (TaskCoordinator.workflows c)) c).
Proof.
  intros Hw Hgood Hbad.
  rewrite foldl_app, (custom_loop_ok workflow_id good c w Hw Hgood).
  cbn [foldl fst snd].
  rewrite add_custom_task_unknown_agent by exact Hbad.
  apply custom_loop_stuck.
Qed.

(** X19: when the agent of every task definition is registered,
    [create_custom_workflow] returns an idle workflow stored under its id
    (taking the place of a workflow that had this id), with one pending
    task per definition, in order.  An absent "id" becomes
    [<workflow_id>_<position>], absent dependencies the empty list, an
    absent priority 5; an absent timeout becomes 300 and a timeout of 0
    the default timeout of the coordinator. *)
Theorem custom_workflow_created (workflow_id : string) (self : TaskCoordinator.t)
    (workflow_name : string) (tasks : list TaskDef.t)
    (Hagents : ∀ d, d ∈ tasks →
                 is_Some (TaskCoordinator.agents self !! TaskDef.agent_id d)) :
  ∃ workflow self',
    create_custom_workflow workflow_id self workflow_name tasks = (inr workflow, self')
    ∧ TaskCoordinator.workflows self'
      = <[workflow_id := workflow]> (TaskCoordinator.workflows self)
    ∧ TaskCoordinator.agents self' = TaskCoordinator.agents self
    ∧ Workflow.workflow_id workflow = workflow_id
    ∧ Workflow.name workflow = workflow_name
    ∧ Workflow.status workflow = IDLE
    ∧ length (Workflow.tasks workflow) = length tasks
    ∧ ∀ i d, tasks !! i = Some d →
        ∃ task, Workflow.tasks workflow !! i = Some task
          ∧ WorkflowTask.task_id task
            = default (workflow_id +:+ "_" +:+ str_int (Z.of_nat i)) (TaskDef.id d)
          ∧ WorkflowTask.agent_id task = TaskDef.agent_id d
          ∧ WorkflowTask.dependencies task = default [] (TaskDef.dependencies d)
          ∧ WorkflowTask.priority task = default 5 (TaskDef.priority d)
          ∧ WorkflowTask.timeout task
            = match TaskDef.timeout d with
              | Some z => if z =? 0 then TaskCoordinator.default_timeout self else z
              | None => 300
              end
          ∧ WorkflowTask.status task = "pending"
          ∧ WorkflowTask.retry_count task = 0.
Proof.
  unfold create_custom_workflow. simpl.
  erewrite custom_loop_ok; [|by simpl; rewrite lookup_insert_eq|done].
  simpl. rewrite lookup_insert_eq. simpl.
  do 2 eexists. split; [done|]. simpl. rewrite insert_insert_eq.
  repeat split; [by rewrite length_imap|].
  intros i d Hd. eexists. rewrite list_lookup_imap, Hd. simpl. by repeat split.
Qed.

Lemma custom_workflow_created_witness :
  ∃ workflow self',
    create_custom_workflow "custom_1" (coordinator_with []) "survey" two_task_defs
    = (inr workflow, self')
    ∧ (WorkflowTask.task_id <$> Workflow.tasks workflow) = ["custom_1_0"; "summary"]
    ∧ (WorkflowTask.timeout <$> Workflow.tasks workflow) = [300; 300].
Proof.
  destruct (custom_workflow_created "custom_1" (coordinator_with []) "survey"
              two_task_defs) as (workflow & self' & Hcall & _).
  { apply Forall_forall. repeat apply Forall_cons_2; [..|apply Forall_nil_2];
      vm_compute; eexists; reflexivity. }
  exists workflow, self'. split; [exact Hcall|].
  vm_compute in Hcall. injection Hcall as <- _. split; reflexivity.
Defined.

(** X20: [create_custom_workflow] is not atomic.  At the first task
    definition whose agent is not registered it raises the ValueError of
    [create_task], and the workflow stays registered under its id, idle,
    holding the tasks built from the definitions before that one; the
    definitions after it are not looked at. *)
Theorem custom_workflow_unknown_agent (workflow_id : string)
    (self : TaskCoordinator.t) (workflow_name : string)
    (good : list TaskDef.t) (bad : TaskDef.t) (rest : list TaskDef.t)
    (Hgood : ∀ d, d ∈ good →
               is_Some (TaskCoordinator.agents self !! TaskDef.agent_id d))
    (Hbad : TaskCoordinator.agents self !! TaskDef.agent_id bad = None) :
  ∃ workflow self',
    create_custom_workflow workflow_id self workflow_name (good ++ bad :: rest)
    = (inl (ValueError ("Agent不存在: " +:+ TaskDef.agent_id bad)), self')
    ∧ TaskCoordinator.workflows self'
      = <[workflow_id := workflow]> (TaskCoordinator.workflows self)
    ∧ Workflow.status workflow = IDLE
    ∧ Workflow.tasks workflow
      = imap (custom_task (TaskCoordinator.default_timeout self) workflow_id) good.
Proof.
  unfold create_custom_workflow. simpl.
  erewrite custom_loop_fails; [|by simpl; rewrite lookup_insert_eq|done..].
  simpl. do 2 eexists. split; [done|]. simpl. rewrite insert_insert_eq.
  repeat split.
Qed.

Lemma custom_workflow_unknown_agent_witness :
  ∃ workflow self',
    create_custom_workflow "custom_1" (coordinator_with []) "survey"
      (two_task_defs ++ stray_task_def :: two_task_defs)
    = (inl (ValueError ("Agent不存在: " +:+ "writer_001")), self')
    ∧ TaskCoordinator.workflows self'
      = <[ "custom_1" := workflow]> (TaskCoordinator.workflows (coordinator_with []))
    ∧ Workflow.status workflow = IDLE
    ∧ Workflow.tasks workflow
      = imap (custom_task (TaskCoordinator.default_timeout (coordinator_with []))
                "custom_1") two_task_defs.
Proof.
  apply (custom_workflow_unknown_agent "custom_1" (coordinator_with []) "survey"
           two_task_defs stray_task_def two_task_defs).
  - apply Forall_forall. repeat apply Forall_cons_2; [..|apply Forall_nil_2];
      vm_compute; eexists; reflexivity.
  - vm_compute. reflexivity.
Defined.

(** ** Unregistering an agent *)

(** X21: registering an agent under an id that is not in use and
    unregistering that id gives back the coordinator as it was, and
    unregistering an id that is not registered changes nothing. *)
Theorem register_unregister_round_trip (self : TaskCoordinator.t)
    (agent : BaseAgent.t)
    (Hfresh : TaskCoordinator.agents self !! BaseAgent.agent_id agent = None) :
  unregister_agent (register_agent self agent) (BaseAgent.agent_id agent) = self
  ∧ unregister_agent self (BaseAgent.agent_id agent) = self.
Proof.
  unfold unregister_agent, register_agent. simpl. split.
  - rewrite bool_decide_eq_true_2 by (by rewrite lookup_insert_eq).
    rewrite delete_insert_id by done. by destruct self.
  - rewrite bool_decide_eq_false_2; [done|]. rewrite Hfresh. by intros [? ?].
Qed.

Lemma register_unregister_round_trip_witness :
  unregister_agent (register_agent (coordinator_with two_tasks) planner)
    (BaseAgent.agent_id planner) = coordinator_with two_tasks
  ∧ unregister_agent (coordinator_with two_tasks) (BaseAgent.agent_id planner)
    = coordinator_with two_tasks.
Proof.
  apply (register_unregister_round_trip (coordinator_with two_tasks) planner).
  vm_compute. reflexivity.
Defined.

(** X22: once an agent id is unregistered, [create_task] for it and
    [send_message] to it raise ValueError and change nothing, and
    [_execute_single_task] on a task that was created for it raises
    KeyError before the first attempt: no worker is called, nothing is
    retried and the task is left as it was.  The workflows, and with them
    the tasks already created for the agent, stay. *)
Theorem unregistered_agent_is_unknown (self : TaskCoordinator.t)
    (task : WorkflowTask.t) (task_id task_type data : string)
    (dependencies : option (list string)) (priority : Z) (timeout : option Z)
    (sender_id content message_type : string)
    (metadata : option (list (string * string)))
    (worker : nat → attempt) (n : nat) :
  create_task (unregister_agent self (WorkflowTask.agent_id task)) task_id task_type
    (WorkflowTask.agent_id task) data dependencies priority timeout
  = (inl (ValueError ("Agent不存在: " +:+ WorkflowTask.agent_id task)),
     unregister_agent self (WorkflowTask.agent_id task))
  ∧ send_message (unregister_agent self (WorkflowTask.agent_id task)) sender_id
      (WorkflowTask.agent_id task) content message_type metadata
    = (inl (ValueError ("接收者Agent不存在: " +:+ WorkflowTask.agent_id task)),
       unregister_agent self (WorkflowTask.agent_id task))
  ∧ _execute_single_task (unregister_agent self (WorkflowTask.agent_id task))
      worker n task
    = mk_single_run (unregister_agent self (WorkflowTask.agent_id task)) task
        (inl (KeyError (WorkflowTask.agent_id task))) n
  ∧ TaskCoordinator.workflows (unregister_agent self (WorkflowTask.agent_id task))
    = TaskCoordinator.workflows self.
Proof.
  assert (TaskCoordinator.agents (unregister_agent self (WorkflowTask.agent_id task))
          !! WorkflowTask.agent_id task = None) as Hnone.
  { unfold unregister_agent. case_bool_decide as Hreg; simpl.
    - apply lookup_delete_eq.
    - by apply eq_None_not_Some. }
  unfold create_task, send_message.
  rewrite execute_single_task_unfold, Hnone. repeat split.
  unfold unregister_agent. by case_bool_decide.
Qed.

(** ** Running a workflow with a task whose agent is not registered *)

Lemma start_task_untouched agents0 i task s r :
  untouched agents0 i task s → untouched agents0 i task (start_task s r).
Proof.
  intros [Hagents Hi]. split; [done|]. simpl.
  destruct (decide (i = r.1)) as [->|Hne].
  - rewrite list_lookup_alter_eq. right. by destruct Hi as [-> | ->].
  - by rewrite list_lookup_alter_ne.
Qed.

Lemma start_tasks_untouched agents0 i task l :
  ∀ s, untouched agents0 i task s → untouched agents0 i task (start_tasks s l).
Proof.
  induction l as [|r l IH]; intros s Hs; [done|].
  simpl. by apply IH, start_task_untouched.
Qed.

Lemma run_coroutine_untouched workers agents0 i task s j :
  agents0 !! WorkflowTask.agent_id task = None →
  untouched agents0 i task s → untouched agents0 i task (run_coroutine workers s j).
Proof.
  intros Hnone [Hagents Hi]. unfold run_coroutine.
  destruct (Workflow.tasks (sched_workflow s) !! j) as [tj|] eqn:Hj; [|done].
  split.
  - simpl. rewrite <-Hagents.
    apply history_extended_agents, execute_single_task_history.
  - simpl. destruct (decide (j = i)) as [->|Hne].
    + assert (TaskCoordinator.agents (sched_self s) !! WorkflowTask.agent_id tj = None)
        as Hk.
      { rewrite Hagents.
        destruct Hi as [Hi|Hi]; rewrite Hi in Hj; by injection Hj as <-. }
      rewrite execute_single_task_unfold, Hk. simpl.
      by rewrite list_insert_id.
    + by rewrite list_lookup_insert_ne.
Qed.

Lemma handle_done_untouched workers agents0 i task s x :
  agents0 !! WorkflowTask.agent_id task = None →
  untouched agents0 i task s → untouched agents0 i task (handle_done workers s x).
Proof.
  intros Hnone Hs. unfold handle_done.
  destruct (running_tasks s !! x) as [h|]; [|done].
  assert (untouched agents0 i task
            match h with
            | InFlight j => run_coroutine workers s j
            | Finished _ => s
            end) as Hs1.
  { destruct h; [by apply run_coroutine_untouched|done]. }
  by case_bool_decide.
Qed.

Lemma after_turn_untouched workers hint agents0 i task s :
  agents0 !! WorkflowTask.agent_id task = None →
  untouched agents0 i task s →
  untouched agents0 i task (after_turn workers hint s).
Proof.
  intros Hnone Hs.
  assert (untouched agents0 i task
            (await_and_collect workers hint (start_tasks s (tasks_to_start s))))
    as Hs2.
  { pose proof (start_tasks_untouched agents0 i task (tasks_to_start s) s Hs) as Hs1.
    unfold await_and_collect. case_decide; [done|].
    revert Hs1.
    generalize (elements (wait_first_completed
                            (running_tasks (start_tasks s (tasks_to_start s))) hint)).
    generalize (start_tasks s (tasks_to_start s)). intros s1 l. revert s1.
    induction l as [|x l IH]; intros s1 Hs1; [done|].
    simpl. by apply IH, handle_done_untouched. }
  unfold after_turn, loop_body.
  destruct (bool_decide (ready_of s = []) && _); [|done].
  by destruct (remaining_tasks _ _).
Qed.

Lemma while_loop_untouched workers fuel agents0 i task :
  agents0 !! WorkflowTask.agent_id task = None →
  ∀ hints s,
    untouched agents0 i task s →
    untouched agents0 i task
      match while_loop fuel workers hints s with
      | Returned s' | Raised _ s' | Unfinished s' => s'
      end.
Proof.
  intros Hnone. induction fuel as [|fuel IH]; intros hints s Hs; simpl.
  - by destruct (_ <? _)%nat.
  - destruct (_ <? _)%nat; [|done].
    pose proof (after_turn_untouched workers (hd [] hints) agents0 i task s Hnone Hs)
      as Hturn.
    unfold after_turn in Hturn.
    destruct (loop_body workers (hd [] hints) s) as [s'|s'|e s']; [|done..].
    by apply IH.
Qed.

Lemma while_loop_raises workers fuel :
  ∀ hints s e s',
    while_loop fuel workers hints s = Raised e s' →
    ∃ unresolved, e = PyException (UnresolvedDepsMsg unresolved).
Proof.
  induction fuel as [|fuel IH]; intros hints s e s'; simpl.
  - by destruct (_ <? _)%nat.
  - destruct (_ <? _)%nat; [|done].
    destruct (loop_body workers (hd [] hints) s) as [s1|s1|e1 s1] eqn:Hbody;
      [apply IH|done|].
    intros [= <- <-]. unfold loop_body in Hbody.
    destruct (bool_decide (ready_of s = []) && _); [|done].
    destruct (remaining_tasks _ _); [done|]. injection Hbody as <- _. by eexists.
Qed.

(** X23: the KeyError that the coroutine of a task raises when the agent
    of the task is not registered never reaches the caller of
    [execute_workflow].  Whatever the run does, the workflow is still stored
    under its id afterwards, and it holds the task at its position as it
    was before the run, at most marked "running": without a result, not
    retried, not marked "failed". *)
Theorem unregistered_agent_task_skipped (workers : string → nat → attempt)
    (hints : list (list string)) (fuel : nat) (self : TaskCoordinator.t)
    (workflow_id : string) (workflow : Workflow.t) (i : nat)
    (task : WorkflowTask.t)
    (Hworkflow : TaskCoordinator.workflows self !! workflow_id = Some workflow)
    (Htask : Workflow.tasks workflow !! i = Some task)
    (Hagent : TaskCoordinator.agents self !! WorkflowTask.agent_id task = None) :
  (∃ workflow' task',
     TaskCoordinator.workflows
       (exec_self (execute_workflow fuel workers hints self workflow_id))
     !! workflow_id = Some workflow'
     ∧ Workflow.tasks workflow' !! i = Some task'
     ∧ (task' = task ∨ task' = WorkflowTask.set_status "running" task))
  ∧ ∀ key, exec_outcome (execute_workflow fuel workers hints self workflow_id)
           ≠ Some (inl (KeyError key)).
Proof.
  unfold execute_workflow, _execute_workflow_tasks. rewrite Hworkflow.
  assert (untouched (TaskCoordinator.agents self) i task
            (initial self (Workflow.set_status RUNNING workflow))) as Hstart
    by (by split; [|left]).
  pose proof (while_loop_untouched workers fuel (TaskCoordinator.agents self) i task
                Hagent hints (initial self (Workflow.set_status RUNNING workflow))
                Hstart) as Hend.
  pose proof (while_loop_raises workers fuel hints
                (initial self (Workflow.set_status RUNNING workflow))) as Hraises.
  destruct (while_loop fuel workers hints
              (initial self (Workflow.set_status RUNNING workflow)))
    as [s|e s|s]; cbn [exec_self exec_outcome].
  all: destruct Hend as [_ Hi].
  all: split;
    [unfold store_workflow;
     cbn [TaskCoordinator.workflows TaskCoordinator.set_workflows];
     rewrite lookup_insert_eq;
     destruct Hi as [Hi|Hi];
     do 2 eexists; (split; [done|]); simpl;
     rewrite Hi; (split; [done|]); (by left) || (by right)
    |try done].
  intros key Hkey. by destruct (Hraises e s eq_refl) as [unresolved ->].
Qed.

Lemma unregistered_agent_task_skipped_witness :
  (∃ workflow' task',
     TaskCoordinator.workflows
       (exec_self (execute_workflow 2 succeeds_always [] (coordinator_with [orphan_task])
                     "wf"))
     !! "wf" = Some workflow'
     ∧ Workflow.tasks workflow' !! 0%nat = Some task'
     ∧ (task' = orphan_task ∨ task' = WorkflowTask.set_status "running" orphan_task))
  ∧ ∀ key, exec_outcome (execute_workflow 2 succeeds_always []
                           (coordinator_with [orphan_task]) "wf")
           ≠ Some (inl (KeyError key)).
Proof.
  apply (unregistered_agent_task_skipped succeeds_always [] 2
           (coordinator_with [orphan_task]) "wf"
           (Workflow.mk "wf" "demo" "" [orphan_task] IDLE 0%Q None) 0 orphan_task);
    vm_compute; reflexivity.
Defined.
